(** * Memoist identity service: credential hashing, session tokens,
      authorization guard and account directory.

    Shallow embedding of [backend/app/core/security.py],
    [backend/app/api/v1/auth.py], [backend/app/models/auth.py] and the
    exception-to-status mapping of [backend/app/api/main.py].

    Conventions.
    - Python exceptions are values of [exn]; a computation that may raise
      has type [result A].
    - The clock is read once per request and passed as [now], in whole
      seconds since the epoch (the token library truncates instants to
      whole seconds, and every lifetime added here is a whole number of
      seconds).
    - Random draws (password salt, [uuid4]) are explicit arguments.
    - A Python [str] is modelled by its UTF-8 byte string, so
      [len(s.encode("utf-8"))] is [String.length] and [len(s)], the number
      of characters, is [py_len] (the bytes that start a character).
    - The table [users] is the list of its rows; a handler maps the table
      to a result and the committed table.  When a handler raises, nothing
      is committed: the table is the one the handler was given.
    - Two refusals of the environment are not written into the handlers
      and the token functions; a property that depends on them carries the
      matching hypothesis.  The store refuses text that holds a NUL
      character, so requests are taken with [storable] text; [datetime]
      holds the years 1 to 9999 only, so tokens are issued at instants
      [in_datetime_range].  The refusals of the libraries are written in:
      the size limit of the hasher, the NUL check of [bcrypt], the claim
      validation of the token decoder and the 64-bit offset of the
      store. *)

From Stdlib Require Import ZArith Lia Ascii String.
From stdpp Require Import base list strings gmap sorting pretty.

Local Open Scope string_scope.
Local Open Scope Z_scope.

(** ** Exceptions and their HTTP status *)

Inductive exn : Type :=
| HTTPException (status_code : Z) (detail : string)
| MemoistException (status_code : Z) (message : string)
| RequestValidationError
| JWTError
| ValueError (msg : string)
| TypeError
| AttributeError
| UnknownHashError
| MultipleResultsFound
| IntegrityError
| DBAPIError.

Global Instance exn_eq_dec : EqDecision exn.
Proof. solve_decision. Defined.

Inductive result (A : Type) : Type :=
| Return (a : A)
| Raise (e : exn).
Arguments Return {A} a.
Arguments Raise {A} e.

Global Instance result_ret : MRet result := λ A a, Return a.
Global Instance result_bind : MBind result := λ A B f m,
  match m with
  | Return a => f a
  | Raise e => Raise e
  end.

(** [try: body except Exception: handler] *)
Definition try_except {A} (body : result A) (handler : exn → result A) : result A :=
  match body with
  | Return a => Return a
  | Raise e => handler e
  end.

(** main.py: [HTTPException] keeps its status; [memoist_exception_handler]
    answers with [exc.status_code]; the framework answers 422 to a request
    that violates a [Query] constraint; [general_exception_handler] turns
    every other exception into 500. *)
Definition response_status (e : exn) : Z :=
  match e with
  | HTTPException status_code _ => status_code
  | MemoistException status_code _ => status_code
  | RequestValidationError => 422
  | _ => 500
  end.

Definition status_of {A} (r : result A) : Z :=
  match r with
  | Return _ => 200
  | Raise e => response_status e
  end.

(** ** Values carried by token claims (JSON scalars) *)

Inductive jvalue : Type :=
| JNull
| JBool (b : bool)
| JNum (n : Z)
| JStr (s : string).

Global Instance jvalue_eq_dec : EqDecision jvalue.
Proof. solve_decision. Defined.

(** Python truthiness of [payload.get(k)]; an absent key gives [None]. *)
Definition truthy (v : option jvalue) : bool :=
  match v with
  | None | Some JNull => false
  | Some (JBool b) => b
  | Some (JNum n) => negb (n =? 0)
  | Some (JStr s) => negb (String.eqb s "")
  end.

(** [a or b] on an optional integer *)
Definition py_or (a : option Z) (b : Z) : Z :=
  match a with
  | Some n => if n =? 0 then b else n
  | None => b
  end.

(** [needle in hay] on strings *)
Fixpoint str_contains (needle hay : string) : bool :=
  String.prefix needle hay ||
  match hay with
  | EmptyString => false
  | String _ hay' => str_contains needle hay'
  end.

(** The character NUL, and [NUL in s]. *)
Definition NUL : string := String "000"%char EmptyString.

Definition has_nul (s : string) : bool := str_contains NUL s.

(** [len(s)] of a [str]: a byte of the form 10xxxxxx continues a
    character, every other byte starts one. *)
Definition is_continuation (c : ascii) : bool :=
  let n := N_of_ascii c in ((128 <=? n) && (n <? 192))%N.

Fixpoint py_len (s : string) : nat :=
  match s with
  | EmptyString => O
  | String c s' => ((if is_continuation c then 0 else 1) + py_len s')%nat
  end.

(** ** Identifiers, hashes and tokens *)

Definition uuid : Type := N.

Inductive scheme : Type := pbkdf2_sha256 | bcrypt_sha256 | bcrypt.

Global Instance scheme_eq_dec : EqDecision scheme.
Proof. solve_decision. Defined.

(** A stored hash is self-describing: scheme tag, cost, salt, checksum
    (modular crypt format); any other string is not identified. *)
Inductive hash_str : Type :=
| Mcf (sch : scheme) (rounds : N) (salt : string) (chk : string)
| Unidentified (raw : string).

Global Instance hash_str_eq_dec : EqDecision hash_str.
Proof. solve_decision. Defined.

(** A token string either parses as a compact signed token whose payload
    is a JSON object, or it does not. *)
Inductive token : Type :=
| Malformed (raw : string)
| Compact (alg : string) (payload : gmap string jvalue) (signature : string).

(** ** External collaborators

    The cryptographic primitives and the identifier syntax belong to the
    libraries the service calls; they are taken as an interface. *)
Class Primitives : Type := {
  (** signature of [payload] under [key] with algorithm [alg] *)
  sign : string → string → gmap string jvalue → string;
  (** checksum of a secret under a scheme, cost and salt *)
  digest : scheme → N → string → string → string;
  (** [int(s)] of a string; [None] when it raises [ValueError] *)
  py_int_of_str : string → option Z;
  (** [hashlib.sha256(b).hexdigest()] *)
  sha256_hexdigest : string → string;
  (** [UUID(s)]; [None] when it raises [ValueError] *)
  UUID_parse : string → option uuid;
  (** [str(u)] *)
  uuid_str : uuid → string;
  (** the empty string is not an identifier *)
  UUID_parse_empty : UUID_parse "" = None;
  (** PBKDF2 keys an HMAC with the secret, and HMAC pads a key shorter
      than its 64-byte block with zero bytes: a secret and the same secret
      followed by NUL, both within the block, are the same key. *)
  pbkdf2_key_padding : ∀ rounds salt secret,
    (String.length secret < 64)%nat →
    digest pbkdf2_sha256 rounds salt (secret +:+ NUL) =
    digest pbkdf2_sha256 rounds salt secret
}.

(** ** core/settings.py *)

Record Settings : Type := {
  SECRET_KEY : string;
  ACCESS_TOKEN_EXPIRE_MINUTES : Z;
  REFRESH_TOKEN_EXPIRE_DAYS : Z;
  ALGORITHM : string
}.

(** The defaults of the [Field]s; [SECRET_KEY] has none. *)
Definition default_settings (secret : string) : Settings :=
  {| SECRET_KEY := secret;
     ACCESS_TOKEN_EXPIRE_MINUTES := 30;
     REFRESH_TOKEN_EXPIRE_DAYS := 7;
     ALGORITHM := "HS256" |}.

(** ** The token library: [jwt.encode], [jwt.decode]

    [jwt.encode] turns an instant into whole seconds and signs the claims.
    [jwt.decode] checks the algorithm against the accepted list, recomputes
    the signature, and validates the registered claims in the library's
    order: iat, nbf, exp, aud, sub, jti, at_hash (iss is checked only
    against an issuer the caller names, and none is named here).  The
    numeric claims go through [int()]; the expiry is compared with the
    clock without leeway: the token is expired when [exp < now].  An aud
    or an at_hash claim cannot match, since [decode_token] names neither
    an audience nor an access token.  Every failure is a [JWTError],
    except the [TypeError] of [int(None)], which the library does not
    catch.  The configured algorithm is taken to be one the library
    supports. *)
Section jose.
Context `{Primitives}.

Definition jwt_encode (claims : gmap string jvalue) (key alg : string) : token :=
  Compact alg claims (sign alg key claims).

(** [int(v)] inside [try: ... except ValueError: raise JWTClaimsError] *)
Definition claim_int (v : jvalue) : result Z :=
  match v with
  | JNum n => Return n
  | JBool b => Return (if b then 1 else 0)
  | JStr s =>
      match py_int_of_str s with
      | Some n => Return n
      | None => Raise JWTError
      end
  | JNull => Raise TypeError
  end.

Definition validate_iat (claims : gmap string jvalue) : result unit :=
  match claims !! "iat" with
  | None => Return ()
  | Some v => _ ← claim_int v; Return ()
  end.

Definition validate_nbf (now : Z) (claims : gmap string jvalue) : result unit :=
  match claims !! "nbf" with
  | None => Return ()
  | Some v => nbf ← claim_int v; if now <? nbf then Raise JWTError else Return ()
  end.

Definition validate_exp (now : Z) (claims : gmap string jvalue) : result unit :=
  match claims !! "exp" with
  | None => Return ()
  | Some v => exp ← claim_int v; if exp <? now then Raise JWTError else Return ()
  end.

(** A claim that must be absent for the token to pass. *)
Definition validate_absent (name : string) (claims : gmap string jvalue)
  : result unit :=
  match claims !! name with
  | None => Return ()
  | Some _ => Raise JWTError
  end.

(** A claim that must be a string when it is present. *)
Definition validate_str (name : string) (claims : gmap string jvalue)
  : result unit :=
  match claims !! name with
  | None | Some (JStr _) => Return ()
  | Some _ => Raise JWTError
  end.

Definition validate_claims (now : Z) (claims : gmap string jvalue) : result unit :=
  _ ← validate_iat claims;
  _ ← validate_nbf now claims;
  _ ← validate_exp now claims;
  _ ← validate_absent "aud" claims;
  _ ← validate_str "sub" claims;
  _ ← validate_str "jti" claims;
  validate_absent "at_hash" claims.

Definition jwt_decode (now : Z) (t : token) (key : string) (algorithms : list string)
  : result (gmap string jvalue) :=
  match t with
  | Malformed _ => Raise JWTError
  | Compact alg payload signature =>
      if bool_decide (alg ∈ algorithms) then
        if bool_decide (signature = sign alg key payload) then
          _ ← validate_claims now payload; Return payload
        else Raise JWTError
      else Raise JWTError
  end.
End jose.

(** ** The password library: the [CryptContext] *)

Record CryptContext : Type := {
  schemes : list scheme;
  pbkdf2_sha256__default_rounds : N;
  bcrypt__truncate_error : bool;
  bcrypt_sha256__truncate_error : bool
}.

Section passlib.
Context `{Primitives}.

Definition default_rounds (ctx : CryptContext) (s : scheme) : N :=
  match s with
  | pbkdf2_sha256 => pbkdf2_sha256__default_rounds ctx
  | _ => 12%N
  end.

(** [bcrypt] reads at most 72 bytes of the secret; the other two schemes
    have no length limit. *)
Definition secret_of (s : scheme) (secret : string) : string :=
  match s with
  | bcrypt => String.substring 0 72 secret
  | _ => secret
  end.

(** Every scheme refuses a secret of more than 4096 characters. *)
Definition MAX_PASSWORD_SIZE : nat := 4096.

Definition validate_secret (secret : string) : result unit :=
  if (MAX_PASSWORD_SIZE <? py_len secret)%nat
  then Raise (ValueError "password exceeds maximum allowed size")
  else Return ().

(** [bcrypt] refuses a secret that holds a NUL byte. *)
Definition null_check (s : scheme) (secret : string) : result unit :=
  match s with
  | bcrypt =>
      if has_nul secret
      then Raise (ValueError "bcrypt does not allow NULL bytes in password")
      else Return ()
  | _ => Return ()
  end.

(** What a scheme raises instead of truncating when told to. *)
Definition truncate_check (ctx : CryptContext) (s : scheme) (secret : string)
  : result unit :=
  match s with
  | bcrypt =>
      if bcrypt__truncate_error ctx && (72 <? String.length secret)%nat
      then Raise (ValueError "Password too long (bcrypt truncates to 72 characters)")
      else Return ()
  | _ => Return ()
  end.

(** The checks a scheme makes on the secret before it computes. *)
Definition check_secret (ctx : CryptContext) (s : scheme) (secret : string)
  : result unit :=
  _ ← validate_secret secret;
  _ ← null_check s secret;
  truncate_check ctx s secret.

(** [ctx.hash(secret)]: the first scheme of the list is the default one. *)
Definition ctx_hash (ctx : CryptContext) (salt secret : string) : result hash_str :=
  match schemes ctx with
  | [] => Raise (ValueError "no crypt algorithms supported")
  | s :: _ =>
      _ ← check_secret ctx s secret;
      let rounds := default_rounds ctx s in
      Return (Mcf s rounds salt (digest s rounds salt (secret_of s secret)))
  end.

(** [ctx.identify(hash)] *)
Definition ctx_identify (ctx : CryptContext) (h : hash_str) : option scheme :=
  match h with
  | Mcf s _ _ _ => if bool_decide (s ∈ schemes ctx) then Some s else None
  | Unidentified _ => None
  end.

(** [ctx.verify(secret, hash)]: the hash is identified first, then the
    scheme checks the secret. *)
Definition ctx_verify (ctx : CryptContext) (secret : string) (h : hash_str)
  : result bool :=
  match h with
  | Mcf s rounds salt chk =>
      if bool_decide (s ∈ schemes ctx) then
        _ ← check_secret ctx s secret;
        Return (bool_decide (digest s rounds salt (secret_of s secret) = chk))
      else Raise UnknownHashError
  | Unidentified _ => Raise UnknownHashError
  end.
End passlib.

(** ** core/security.py *)

Section security.
Context `{Primitives}.
Variable settings : Settings.

Definition pwd_context : CryptContext :=
  {| schemes := [pbkdf2_sha256; bcrypt_sha256; bcrypt];
     pbkdf2_sha256__default_rounds := 310000;
     bcrypt__truncate_error := false;
     bcrypt_sha256__truncate_error := false |}.

Definition verify_password (plain_password : string) (hashed_password : hash_str)
  : result bool :=
  let scheme := ctx_identify pwd_context hashed_password in
  if bool_decide (scheme = Some bcrypt) && (72 <? String.length plain_password)%nat then
    let pre := sha256_hexdigest plain_password in
    ctx_verify pwd_context pre hashed_password
  else ctx_verify pwd_context plain_password hashed_password.

Definition get_password_hash (salt password : string) : result hash_str :=
  try_except (ctx_hash pwd_context salt password) (λ e,
    match e with
    | ValueError msg =>
        if str_contains "72 bytes" msg then
          let pre := sha256_hexdigest password in
          ctx_hash pwd_context salt pre
        else Raise e
    | _ => Raise e
    end).

(** [to_encode.update(extra)]: the entries of [extra] win. *)
Definition dict_update (to_encode : gmap string jvalue)
    (extra : option (gmap string jvalue)) : gmap string jvalue :=
  match extra with
  | Some e => e ∪ to_encode
  | None => to_encode
  end.

Definition create_access_token (now : Z) (subject : string)
    (expires_minutes : option Z) (extra : option (gmap string jvalue)) : token :=
  let expire_delta := 60 * py_or expires_minutes (ACCESS_TOKEN_EXPIRE_MINUTES settings) in
  let to_encode := <["exp" := JNum (now + expire_delta)]> {["sub" := JStr subject]} in
  jwt_encode (dict_update to_encode extra) (SECRET_KEY settings) (ALGORITHM settings).

Definition decode_token (now : Z) (t : token) : result (gmap string jvalue) :=
  jwt_decode now t (SECRET_KEY settings) [ALGORITHM settings].

Definition create_refresh_token (now : Z) (subject : string)
    (expires_days : option Z) (extra : option (gmap string jvalue)) : token :=
  let expire_delta := 86400 * py_or expires_days (REFRESH_TOKEN_EXPIRE_DAYS settings) in
  let to_encode :=
    <["exp" := JNum (now + expire_delta)]>
      (<["type" := JStr "refresh"]> {["sub" := JStr subject]}) in
  jwt_encode (dict_update to_encode extra) (SECRET_KEY settings) (ALGORITHM settings).
End security.

(** ** models/auth.py: the [users] table

    Record projections share one name space, so the columns of [User]
    carry the prefix [u_], and the fields of the request and response
    models below the prefixes [c_] (create), [l_] (login), [p_] (partial
    update), [r_] (response), [lr_], [s_] and [t_]. *)

Record User : Type := {
  u_id : uuid;
  u_email : string;
  u_username : string;
  u_full_name : option string;
  u_is_active : bool;
  u_password_hash : hash_str;
  u_created_at : Z;
  u_updated_at : Z;
  u_last_login : option Z
}.

Global Instance User_eq_dec : EqDecision User.
Proof. solve_decision. Defined.

(** The table's declared constraints: primary key [id], [unique=True] on
    [email] and on [username]. *)
Definition constraints (rows : list User) : Prop :=
  NoDup (u_id <$> rows) ∧ NoDup (u_email <$> rows) ∧ NoDup (u_username <$> rows).

Global Instance constraints_dec rows : Decision (constraints rows).
Proof. unfold constraints. apply _. Defined.

(** [await db.commit()]: the store refuses a table that breaks them. *)
Definition commit (rows : list User) : result (list User) :=
  if bool_decide (constraints rows) then Return rows else Raise IntegrityError.

(** [res.scalar_one_or_none()] on the rows a query selects *)
Definition scalar_one_or_none {A} (rows : list A) : result (option A) :=
  match rows with
  | [] => Return None
  | [x] => Return (Some x)
  | _ => Raise MultipleResultsFound
  end.

(** The session writes a changed row back under its primary key. *)
Definition write_back (u : User) (rows : list User) : list User :=
  (λ r, if bool_decide (u_id r = u_id u) then u else r) <$> rows.

(** ** api/v1/auth.py: request and response models *)

Record UserCreate : Type := {
  c_email : string;
  c_username : string;
  c_full_name : option string;
  c_is_active : bool;
  c_password : string
}.

Record UserLogin : Type := {
  l_username : string;
  l_password : string
}.

(** [dict(exclude_unset=True)]: a field is [None] when the request did not
    set it, [Some v] when it did; an explicit null is [Some None]. *)
Record UserUpdate : Type := {
  p_email : option (option string);
  p_username : option (option string);
  p_full_name : option (option string);
  p_is_active : option (option bool)
}.

Record UserResponse : Type := {
  r_email : string;
  r_username : string;
  r_full_name : option string;
  r_is_active : bool;
  r_id : string;
  r_created_at : Z;
  r_updated_at : Z;
  r_last_login : option Z
}.

Record UserListResponse : Type := {
  lr_users : list UserResponse;
  lr_total : Z;
  lr_skip : Z;
  lr_limit : Z
}.

Record UserStats : Type := {
  s_total_users : Z;
  s_active_users : Z;
  s_inactive_users : Z
}.

Record Token : Type := {
  t_access_token : token;
  t_refresh_token : token;
  t_token_type : string
}.

(** [Query(default, ge=lo, le=hi)]: the declared default when the
    parameter is absent, a validation error when a bound is violated. *)
Definition Query (default : Z) (ge le : option Z) (given : option Z) : result Z :=
  let v := match given with Some v => v | None => default end in
  let ge_ok := match ge with Some lo => lo <=? v | None => true end in
  let le_ok := match le with Some hi => v <=? hi | None => true end in
  if ge_ok && le_ok then Return v else Raise RequestValidationError.

(** ** api/v1/auth.py: the handlers *)

Section auth.
Context `{Primitives}.
Variable settings : Settings.

Definition unauthorized (detail : string) : exn := HTTPException 401 detail.

(** [UUID(x)] on a claim value: a string is parsed, anything else has no
    [replace] method. *)
Definition UUID (v : option jvalue) : result uuid :=
  match v with
  | Some (JStr s) =>
      match UUID_parse s with
      | Some uid => Return uid
      | None => Raise (ValueError "badly formed hexadecimal UUID string")
      end
  | _ => Raise AttributeError
  end.

(** [select(User).where(User.id == uid)] *)
Definition select_by_id (uid : uuid) (db : list User) : list User :=
  filter (λ r, u_id r = uid) db.

Definition get_current_user (now : Z) (db : list User) (tok : token) : result User :=
  try_except
    (payload ← decode_token settings now tok;
     let sub := payload !! "sub" in
     if negb (truthy sub) then Raise (unauthorized "Invalid token") else
     uid ← UUID sub;
     u ← scalar_one_or_none (select_by_id uid db);
     match u with
     | None => Raise (unauthorized "User not found")
     | Some u => Return u
     end)
    (λ _, Raise (unauthorized "Invalid credentials")).

Definition to_user_response (u : User) : UserResponse :=
  {| r_id := uuid_str (u_id u);
     r_email := u_email u;
     r_username := u_username u;
     r_full_name := u_full_name u;
     r_is_active := u_is_active u;
     r_created_at := u_created_at u;
     r_updated_at := u_updated_at u;
     r_last_login := u_last_login u |}.

(** [new_id] is the [uuid4] drawn for the row, [salt] the salt drawn for
    the hash. *)
Definition create_user (now : Z) (new_id : uuid) (salt : string)
    (user_data : UserCreate) (db : list User) : result (UserResponse * list User) :=
  existing ← scalar_one_or_none
    (filter (λ r, u_email r = c_email user_data ∨ u_username r = c_username user_data) db);
  if existing is Some _ then Raise (HTTPException 409 "User already exists") else
  password_hash ← get_password_hash salt (c_password user_data);
  let u := {| u_id := new_id;
              u_email := c_email user_data;
              u_username := c_username user_data;
              u_full_name := c_full_name user_data;
              u_is_active := true;
              u_password_hash := password_hash;
              u_created_at := now;
              u_updated_at := now;
              u_last_login := None |} in
  db' ← commit (db ++ [u]);
  Return (to_user_response u, db').

Definition set_last_login (u : User) (t : Z) : User :=
  {| u_id := u_id u; u_email := u_email u; u_username := u_username u;
     u_full_name := u_full_name u; u_is_active := u_is_active u;
     u_password_hash := u_password_hash u; u_created_at := u_created_at u;
     u_updated_at := u_updated_at u; u_last_login := Some t |}.

Definition issue_pair (now : Z) (u : User) : Token :=
  let extra := Some {["username" := JStr (u_username u)]} in
  let access := create_access_token settings now (uuid_str (u_id u)) None extra in
  let refresh := create_refresh_token settings now (uuid_str (u_id u)) None extra in
  {| t_access_token := access; t_refresh_token := refresh; t_token_type := "bearer" |}.

Definition login_user (now : Z) (user_data : UserLogin) (db : list User)
  : result (Token * list User) :=
  u ← scalar_one_or_none (filter (λ r, u_username r = l_username user_data) db);
  match u with
  | None => Raise (unauthorized "Incorrect username or password")
  | Some u =>
      ok ← verify_password (l_password user_data) (u_password_hash u);
      if negb ok then Raise (unauthorized "Incorrect username or password") else
      db' ← commit (write_back (set_last_login u now) db);
      Return (issue_pair now u, db')
  end.

Definition refresh_token (now : Z) (data : token) (db : list User) : result Token :=
  payload ← decode_token settings now data;
  if bool_decide (payload !! "type" ≠ Some (JStr "refresh"))
  then Raise (HTTPException 400 "Invalid refresh token") else
  let sub := payload !! "sub" in
  if negb (truthy sub) then Raise (unauthorized "Invalid token") else
  uid ← UUID sub;
  u ← scalar_one_or_none (select_by_id uid db);
  match u with
  | None => Raise (unauthorized "User not found")
  | Some u =>
      if negb (u_is_active u) then Raise (unauthorized "User not found")
      else Return (issue_pair now u)
  end.

Definition get_user_stats (db : list User) : UserStats :=
  let total_users := Z.of_nat (length db) in
  let active_users := Z.of_nat (length (filter (λ r, u_is_active r = true) db)) in
  {| s_total_users := total_users;
     s_active_users := active_users;
     s_inactive_users := total_users - active_users |}.

(** [try: UUID(user_id) except Exception: raise 400] *)
Definition path_id (user_id : string) : result uuid :=
  try_except (UUID (Some (JStr user_id)))
    (λ _, Raise (HTTPException 400 "Invalid user ID format")).

Definition get_user (user_id : string) (db : list User) : result UserResponse :=
  uid ← path_id user_id;
  u ← scalar_one_or_none (select_by_id uid db);
  match u with
  | None => Raise (HTTPException 404 "User not found")
  | Some u => Return (to_user_response u)
  end.

(** [ORDER BY created_at DESC].  The store is free to return rows with
    equal instants in any order, and a different one for each query; the
    sort fixes one such order.  What is proved of a page either holds of
    every descending order or is stated for rows with distinct instants. *)
Definition created_desc (a b : User) : Prop := u_created_at b ≤ u_created_at a.

Global Instance created_desc_dec a b : Decision (created_desc a b).
Proof. unfold created_desc. apply _. Defined.

Definition order_by_created_at_desc (rows : list User) : list User :=
  merge_sort created_desc rows.

(** [q = select(User)], narrowed by [q.where(User.is_active == is_active)]
    when the filter is given. *)
Definition where_is_active (is_active : option bool) (db : list User) : list User :=
  match is_active with
  | Some b => filter (λ r, u_is_active r = b) db
  | None => db
  end.

(** [OFFSET] is a 64-bit integer of the store: the page query is refused
    when [skip] does not fit, after the count query has run. *)
Definition MAX_OFFSET : Z := 2 ^ 63 - 1.

Definition list_users (is_active : option bool) (skip limit : option Z)
    (db : list User) : result UserListResponse :=
  skip ← Query 0 (Some 0) None skip;
  limit ← Query 50 (Some 1) (Some 100) limit;
  let q := where_is_active is_active db in
  let total := Z.of_nat (length q) in
  if MAX_OFFSET <? skip then Raise DBAPIError else
  let rows := take (Z.to_nat limit)
                (drop (Z.to_nat skip) (order_by_created_at_desc q)) in
  Return {| lr_users := to_user_response <$> rows;
            lr_total := total; lr_skip := skip; lr_limit := limit |}.

(** [WHERE column = value] against a supplied value; a null value
    selects nothing from a column that holds no nulls. *)
Definition where_eq {A} `{EqDecision A} (col : User → A) (v : option A)
    (rows : list User) : list User :=
  filter (λ r, Some (col r) = v) rows.

(** Assignment of a supplied value to a [nullable=False] column; the
    store refuses a null when the row is written. *)
Definition assign {A} (supplied : option (option A)) (old : A) : result A :=
  match supplied with
  | None => Return old
  | Some (Some v) => Return v
  | Some None => Raise IntegrityError
  end.

Definition update_user (now : Z) (user_id : string) (update_data : UserUpdate)
    (db : list User) : result (UserResponse * list User) :=
  uid ← path_id user_id;
  u ← scalar_one_or_none (select_by_id uid db);
  match u with
  | None => Raise (HTTPException 404 "User not found")
  | Some u =>
      _ ← (if bool_decide (is_Some (p_email update_data) ∨
                            is_Some (p_username update_data)) then
             let conflict_q := filter (λ r, u_id r ≠ uid) db in
             let conflict_q :=
               match p_email update_data with
               | Some e => where_eq u_email e conflict_q
               | None => conflict_q
               end in
             let conflict_q :=
               match p_username update_data with
               | Some n => where_eq u_username n conflict_q
               | None => conflict_q
               end in
             conflict ← scalar_one_or_none conflict_q;
             if conflict is Some _
             then Raise (HTTPException 409 "Email or username already exists")
             else Return ()
           else Return ());
      email ← assign (p_email update_data) (u_email u);
      username ← assign (p_username update_data) (u_username u);
      let full_name := default (u_full_name u) (p_full_name update_data) in
      is_active ← assign (p_is_active update_data) (u_is_active u);
      let u' := {| u_id := u_id u;
                   u_email := email;
                   u_username := username;
                   u_full_name := full_name;
                   u_is_active := is_active;
                   u_password_hash := u_password_hash u;
                   u_created_at := u_created_at u;
                   u_updated_at := now;
                   u_last_login := u_last_login u |} in
      db' ← commit (write_back u' db);
      Return (to_user_response u', db')
  end.

Definition delete_user (user_id : string) (db : list User)
  : result (string * list User) :=
  uid ← path_id user_id;
  u ← scalar_one_or_none (select_by_id uid db);
  match u with
  | None => Raise (HTTPException 404 "User not found")
  | Some u =>
      db' ← commit (filter (λ r, u_id r ≠ u_id u) db);
      Return ("User deleted successfully", db')
  end.
End auth.

(** ** An inhabitant of the interface

    Used to run the handlers on concrete requests.  Identifiers are read
    and printed in their canonical form (32 hexadecimal digits, hyphens
    ignored on input); the signature and the checksum are plain
    concatenations and carry no cryptographic meaning. *)

Definition hex_digit (c : ascii) : option N :=
  let n := N_of_ascii c in
  if ((48 <=? n) && (n <=? 57))%N then Some (n - 48)%N
  else if ((97 <=? n) && (n <=? 102))%N then Some (n - 87)%N
  else if ((65 <=? n) && (n <=? 70))%N then Some (n - 55)%N
  else None.

Fixpoint hex_value (acc : N) (s : string) : option N :=
  match s with
  | EmptyString => Some acc
  | String c s' =>
      match hex_digit c with
      | Some d => hex_value (16 * acc + d)%N s'
      | None => None
      end
  end.

Fixpoint remove_hyphens (s : string) : string :=
  match s with
  | EmptyString => EmptyString
  | String c s' =>
      if Ascii.eqb c "-"%char then remove_hyphens s' else String c (remove_hyphens s')
  end.

Definition canonical_parse (s : string) : option uuid :=
  let h := remove_hyphens s in
  if (String.length h =? 32)%nat then hex_value 0 h else None.

Definition hex_char (d : N) : ascii :=
  if (d <? 10)%N then ascii_of_N (48 + d) else ascii_of_N (87 + d).

Fixpoint hex_fixed (width : nat) (n : N) (acc : string) : string :=
  match width with
  | O => acc
  | S w => hex_fixed w (n / 16)%N (String (hex_char (n mod 16)%N) acc)
  end.

Definition canonical_str (u : uuid) : string :=
  let h := hex_fixed 32 u "" in
  String.substring 0 8 h +:+ "-" +:+ String.substring 8 4 h +:+ "-" +:+
  String.substring 12 4 h +:+ "-" +:+ String.substring 16 4 h +:+ "-" +:+
  String.substring 20 12 h.

Definition jvalue_str (v : jvalue) : string :=
  match v with
  | JNull => "null"
  | JBool b => if b then "true" else "false"
  | JNum n => pretty n
  | JStr s => s
  end.

(** The secret without its trailing NUL bytes: what is left of a key once
    the zero padding is taken off. *)
Fixpoint strip_nul (s : string) : string :=
  match s with
  | EmptyString => EmptyString
  | String c s' =>
      match strip_nul s' with
      | EmptyString => if Ascii.eqb c "000"%char then EmptyString else String c EmptyString
      | r => String c r
      end
  end.

Fixpoint decimal_value (acc : Z) (s : string) : option Z :=
  match s with
  | EmptyString => Some acc
  | String c s' =>
      let n := Z.of_N (N_of_ascii c) in
      if (48 <=? n) && (n <=? 57) then decimal_value (10 * acc + (n - 48)) s' else None
  end.

Definition decimal_parse (s : string) : option Z :=
  match s with
  | EmptyString => None
  | _ => decimal_value 0 s
  end.

Definition sample_primitives : Primitives.
Proof.
  refine {| sign := λ alg key payload,
              alg +:+ "." +:+ key +:+ "." +:+
              String.concat ","
                ((λ kv, kv.1 +:+ "=" +:+ jvalue_str kv.2) <$> map_to_list payload);
            digest := λ s rounds salt secret, salt +:+ "$" +:+ strip_nul secret;
            py_int_of_str := decimal_parse;
            sha256_hexdigest := λ b, "sha256:" +:+ b;
            UUID_parse := canonical_parse;
            uuid_str := canonical_str;
            UUID_parse_empty := eq_refl |}.
  intros rounds salt secret _. f_equal. f_equal.
  induction secret as [|c secret IH]; [reflexivity|].
  simpl. by rewrite IH.
Defined.

(** ** Sample data for running the handlers *)

Definition cfg : Settings := default_settings "k".

Definition sample_user (n : N) (email username : string) (active : bool) (t : Z)
  : User :=
  {| u_id := n; u_email := email; u_username := username; u_full_name := None;
     u_is_active := active;
     u_password_hash := Mcf pbkdf2_sha256 310000 "s" ("s$" +:+ username +:+ "-pw");
     u_created_at := t; u_updated_at := t; u_last_login := None |}.

Definition alice : User := sample_user 1 "a@x.com" "alice" true 100.
Definition bob : User := sample_user 2 "b@x.com" "bob" true 200.
Definition carol : User := sample_user 3 "c@x.com" "carol" false 300.
Definition sample_db : list User := [alice; bob; carol].

Definition alice_login : UserLogin :=
  {| l_username := "alice"; l_password := "alice-pw" |}.

(** ** The inputs the model speaks for

    Text the store takes for any column of the table: no NUL character,
    and short enough for the index of a unique column.  The handlers are
    modelled on such text; what the store answers to other text is not. *)
Definition storable (s : string) : Prop :=
  has_nul s = false ∧ (String.length s ≤ 1024)%nat.

Global Instance storable_dec s : Decision (storable s).
Proof. unfold storable. apply _. Defined.

(** The same for a nullable column. *)
Definition storable_opt (s : option string) : Prop :=
  match s with
  | Some s => storable s
  | None => True
  end.

Global Instance storable_opt_dec s : Decision (storable_opt s).
Proof. destruct s; simpl; apply _. Defined.

(** The instants [datetime] can hold, in seconds since the epoch: years 1
    to 9999.  Outside them [datetime.now() + timedelta(...)] raises
    [OverflowError], which the token functions here do not model. *)
Definition datetime_min : Z := -62135596800.
Definition datetime_max : Z := 253402300799.

Definition in_datetime_range (t : Z) : Prop := datetime_min ≤ t ≤ datetime_max.

(** ** Mutations of the table

    One successful request of a handler that writes to the table, served
    at clock reading [now]. *)
Inductive step `{Primitives} (settings : Settings) (now : Z) (db db' : list User)
  : Prop :=
| step_create new_id salt user_data resp :
    create_user now new_id salt user_data db = Return (resp, db') →
    step settings now db db'
| step_login user_data tok :
    login_user settings now user_data db = Return (tok, db') →
    step settings now db db'
| step_update user_id update_data resp :
    update_user now user_id update_data db = Return (resp, db') →
    step settings now db db'
| step_delete user_id msg :
    delete_user user_id db = Return (msg, db') →
    step settings now db db'.

(** The spec's sentence "updated-at is refreshed on any mutation", in its
    own words, for comparison with the handlers: whenever a successful
    request leaves a row different from what it was, the row's updated-at
    is the clock reading of that request. *)
Definition refreshed_on_any_mutation `{Primitives} (settings : Settings) : Prop :=
  ∀ now db db' u u',
    step settings now db db' → u ∈ db → u' ∈ db' → u_id u' = u_id u →
    u' ≠ u → u_updated_at u' = now.

(** The spec's two sentences on the hasher, in their own words, for
    comparison with the code: every password verifies against its own
    hash, and no other password does. *)
Definition verifies_own_hash `{Primitives} : Prop :=
  ∀ salt P, get_password_hash salt P ≫= verify_password P = Return true.

Definition rejects_other_passwords `{Primitives} : Prop :=
  ∀ salt P P', P' ≠ P → get_password_hash salt P ≫= verify_password P' = Return false.

(** * Properties *)

(** ** The result monad *)

Lemma bind_Return {A B} (m : result A) (f : A → result B) (b : B) :
  m ≫= f = Return b → ∃ a, m = Return a ∧ f a = Return b.
Proof. destruct m as [a|e]; simpl; [eauto | discriminate]. Qed.

Lemma commit_Return rows rows' :
  commit rows = Return rows' → rows' = rows ∧ constraints rows.
Proof.
  unfold commit. case_bool_decide; [|discriminate].
  intros [= <-]. done.
Qed.

Lemma scalar_one_or_none_Some {A} (rows : list A) (x : A) :
  scalar_one_or_none rows = Return (Some x) → rows = [x].
Proof. destruct rows as [|y [|z rows]]; simpl; congruence. Qed.

Lemma scalar_one_or_none_None {A} (rows : list A) :
  scalar_one_or_none rows = Return None → rows = [].
Proof. destruct rows as [|y [|z rows]]; simpl; congruence. Qed.

(** ** Rows selected by a unique column *)

Section unique_column.
Context {K : Type} `{EqDecision K} (col : User → K).

Lemma filter_col_miss (k : K) (db : list User) :
  k ∉ col <$> db → filter (λ r, col r = k) db = [].
Proof.
  induction db as [|r db IH]; [done|].
  rewrite fmap_cons, not_elem_of_cons. intros [Hne Hnin].
  rewrite filter_cons_False by congruence. auto.
Qed.

Lemma filter_col_unique (u : User) (db : list User) :
  NoDup (col <$> db) → u ∈ db → filter (λ r, col r = col u) db = [u].
Proof.
  induction db as [|r db IH]; [by rewrite elem_of_nil|].
  rewrite fmap_cons, NoDup_cons, elem_of_cons. intros [Hnin Hnd] [->|Hin].
  - rewrite filter_cons_True by done. f_equal. by apply filter_col_miss.
  - rewrite filter_cons_False; [auto|].
    intros Heq. apply Hnin. rewrite Heq. by apply list_elem_of_fmap_2.
Qed.
End unique_column.

Lemma select_by_id_unique (u : User) (db : list User) :
  NoDup (u_id <$> db) → u ∈ db → select_by_id (u_id u) db = [u].
Proof. apply (filter_col_unique u_id). Qed.

Lemma select_by_id_elem (uid : uuid) (u : User) (db : list User) :
  u ∈ select_by_id uid db → u ∈ db ∧ u_id u = uid.
Proof. unfold select_by_id. rewrite list_elem_of_filter. tauto. Qed.

Lemma NoDup_col_inj {K} (col : User → K) (db : list User) (x y : User) :
  NoDup (col <$> db) → x ∈ db → y ∈ db → col x = col y → x = y.
Proof.
  induction db as [|r db IH]; [by rewrite elem_of_nil|].
  rewrite fmap_cons, NoDup_cons, !elem_of_cons.
  intros [Hnin Hnd] [->|Hx] [->|Hy] Heq; auto.
  - exfalso. apply Hnin. rewrite Heq. by apply list_elem_of_fmap_2.
  - exfalso. apply Hnin. rewrite <- Heq. by apply list_elem_of_fmap_2.
Qed.

(** ** Token codec *)

(** Lookups in the claims the service issues: inserts over a singleton,
    possibly under a union with the extra claims. *)
Ltac issued_lookup :=
  unfold validate_str;
  repeat (rewrite lookup_union_r by done);
  by simplify_map_eq.

Section token_codec.
Context `{Primitives}.
Variable settings : Settings.

Lemma decode_encode (now : Z) (claims : gmap string jvalue) :
  validate_claims now claims = Return () →
  decode_token settings now
    (jwt_encode claims (SECRET_KEY settings) (ALGORITHM settings)) = Return claims.
Proof.
  intros Hok. unfold decode_token, jwt_encode, jwt_decode.
  rewrite bool_decide_eq_true_2 by apply list_elem_of_here.
  rewrite bool_decide_eq_true_2 by done.
  by rewrite Hok.
Qed.

Lemma decode_expired (now exp : Z) (claims : gmap string jvalue) :
  claims !! "exp" = Some (JNum exp) → exp < now →
  claims !! "iat" = None → claims !! "nbf" = None →
  decode_token settings now
    (jwt_encode claims (SECRET_KEY settings) (ALGORITHM settings)) = Raise JWTError.
Proof.
  intros Hexp Hlt Hiat Hnbf. unfold decode_token, jwt_encode, jwt_decode.
  rewrite bool_decide_eq_true_2 by apply list_elem_of_here.
  rewrite bool_decide_eq_true_2 by done.
  unfold validate_claims, validate_iat, validate_nbf, validate_exp.
  rewrite Hiat, Hnbf, Hexp. simpl.
  by rewrite (proj2 (Z.ltb_lt _ _) Hlt).
Qed.

(** Claims that carry a numeric expiry not yet passed, a string subject
    (or none) and none of iat, nbf, aud, jti, at_hash pass the validation. *)
Lemma validate_claims_fresh (t exp : Z) (claims : gmap string jvalue) :
  claims !! "exp" = Some (JNum exp) → t ≤ exp →
  validate_str "sub" claims = Return () →
  claims !! "iat" = None → claims !! "nbf" = None → claims !! "aud" = None →
  claims !! "jti" = None → claims !! "at_hash" = None →
  validate_claims t claims = Return ().
Proof.
  intros Hexp Hle Hsub Hiat Hnbf Haud Hjti Hat.
  unfold validate_claims, validate_iat, validate_nbf, validate_exp, validate_absent.
  rewrite Hiat, Hnbf, Hexp, Haud, Hat, Hsub. simpl.
  rewrite (proj2 (Z.ltb_ge _ _) Hle). simpl.
  unfold validate_str. by rewrite Hjti.
Qed.

Lemma create_access_token_zero (now : Z) (subject : string)
    (extra : option (gmap string jvalue)) :
  create_access_token settings now subject (Some 0) extra =
  create_access_token settings now subject None extra.
Proof. reflexivity. Qed.
End token_codec.

(** C1 (evaluation of the code at the failing input).  An access token
    issued with [expires_minutes = 0] under the default settings is the
    token issued with no lifetime given: its expiry is thirty minutes
    ahead, and [decode_token] accepts it at the instant of issue and up to
    the last second of those thirty minutes. *)
Theorem zero_ttl_access_token_is_accepted `{Primitives}
    (secret subject : string) (now : Z) :
  let settings := default_settings secret in
  let tok := create_access_token settings now subject (Some 0) None in
  let claims := <["exp" := JNum (now + 1800)]> {["sub" := JStr subject]} in
  tok = create_access_token settings now subject None None ∧
  decode_token settings now tok = Return claims ∧
  decode_token settings (now + 1800) tok = Return claims.
Proof.
  intros settings tok claims. split; [reflexivity|].
  split; apply (decode_encode settings);
    apply (validate_claims_fresh _ (now + 1800)); try issued_lookup; lia.
Qed.

(** C5.  For every subject [s]: an access token issued for [s] decodes,
    while it has not expired, to claims whose "sub" is [s] and whose "type"
    is not "refresh" (there is no "type" claim at all); a refresh token
    issued for [s] decodes, while it has not expired, to claims whose "sub"
    is [s] and whose "type" is "refresh". *)
Theorem token_round_trip `{Primitives} (settings : Settings)
    (s : string) (now t : Z) :
  (t ≤ now + 60 * ACCESS_TOKEN_EXPIRE_MINUTES settings →
   ∃ claims,
     decode_token settings t (create_access_token settings now s None None)
       = Return claims ∧
     claims !! "sub" = Some (JStr s) ∧
     claims !! "type" = None ∧
     claims !! "type" ≠ Some (JStr "refresh")) ∧
  (t ≤ now + 86400 * REFRESH_TOKEN_EXPIRE_DAYS settings →
   ∃ claims,
     decode_token settings t (create_refresh_token settings now s None None)
       = Return claims ∧
     claims !! "sub" = Some (JStr s) ∧
     claims !! "type" = Some (JStr "refresh")).
Proof.
  split; intros Hfresh.
  - eexists. split.
    + apply decode_encode. simpl.
      eapply validate_claims_fresh; [apply lookup_insert_eq|done|issued_lookup..].
    + simpl. by simplify_map_eq.
  - eexists. split.
    + apply decode_encode. simpl.
      eapply validate_claims_fresh; [apply lookup_insert_eq|done|issued_lookup..].
    + simpl. by simplify_map_eq.
Qed.

Lemma token_round_trip_witness :
  let settings := default_settings "k" in
  let s := "00000000-0000-0000-0000-000000000001" in
  (∃ claims,
     @decode_token sample_primitives settings 2800
       (@create_access_token sample_primitives settings 1000 s None None)
       = Return claims ∧
     claims !! "sub" = Some (JStr s) ∧
     claims !! "type" = None ∧
     claims !! "type" ≠ Some (JStr "refresh")) ∧
  (∃ claims,
     @decode_token sample_primitives settings 2800
       (@create_refresh_token sample_primitives settings 1000 s None None)
       = Return claims ∧
     claims !! "sub" = Some (JStr s) ∧
     claims !! "type" = Some (JStr "refresh")).
Proof.
  intros settings s.
  destruct (@token_round_trip sample_primitives settings s 1000 2800)
    as [Haccess Hrefresh].
  split; [apply Haccess|apply Hrefresh]; simpl; lia.
Defined.

(** ** Credential hasher *)

Lemma py_len_le (s : string) : (py_len s ≤ String.length s)%nat.
Proof.
  induction s as [|c s IH]; simpl; [lia|].
  destruct (is_continuation c); lia.
Qed.

Lemma length_append_NUL (s : string) :
  String.length (s +:+ NUL) = S (String.length s).
Proof. induction s as [|c s IH]; simpl; [done|]. by rewrite IH. Qed.

Section hasher.
Context `{Primitives}.

Lemma validate_secret_ok (secret : string) :
  (py_len secret ≤ 4096)%nat → validate_secret secret = Return ().
Proof.
  intros Hlen. unfold validate_secret, MAX_PASSWORD_SIZE.
  by rewrite (proj2 (Nat.ltb_ge _ _) Hlen).
Qed.

Lemma validate_secret_long (secret : string) :
  (4096 < py_len secret)%nat →
  validate_secret secret = Raise (ValueError "password exceeds maximum allowed size").
Proof.
  intros Hlen. unfold validate_secret, MAX_PASSWORD_SIZE.
  by rewrite (proj2 (Nat.ltb_lt _ _) Hlen).
Qed.

(** New hashes always come from the default scheme, which has no length
    limit of its own: the digest fallback of [get_password_hash] is never
    taken, and the only refusal is the library's size limit. *)
Lemma get_password_hash_default (salt password : string) :
  (py_len password ≤ 4096)%nat →
  get_password_hash salt password =
  Return (Mcf pbkdf2_sha256 310000 salt
            (digest pbkdf2_sha256 310000 salt password)).
Proof.
  intros Hlen. unfold get_password_hash, ctx_hash, check_secret. simpl.
  by rewrite (validate_secret_ok _ Hlen).
Qed.

Lemma get_password_hash_long (salt password : string) :
  (4096 < py_len password)%nat →
  get_password_hash salt password =
  Raise (ValueError "password exceeds maximum allowed size").
Proof.
  intros Hlen. unfold get_password_hash, ctx_hash, check_secret. simpl.
  by rewrite (validate_secret_long _ Hlen).
Qed.

Lemma get_password_hash_Return (salt password : string) (h : hash_str) :
  get_password_hash salt password = Return h →
  (py_len password ≤ 4096)%nat ∧
  h = Mcf pbkdf2_sha256 310000 salt (digest pbkdf2_sha256 310000 salt password).
Proof.
  destruct (le_lt_dec (py_len password) 4096) as [Hlen|Hlen].
  - rewrite (get_password_hash_default _ _ Hlen). by intros [= <-].
  - by rewrite (get_password_hash_long _ _ Hlen).
Qed.

Lemma verify_password_pbkdf2 (plain : string) (rounds : N) (salt chk : string) :
  (py_len plain ≤ 4096)%nat →
  verify_password plain (Mcf pbkdf2_sha256 rounds salt chk) =
  Return (bool_decide (digest pbkdf2_sha256 rounds salt plain = chk)).
Proof.
  intros Hlen. unfold verify_password, ctx_verify, check_secret. simpl.
  by rewrite (validate_secret_ok _ Hlen).
Qed.

Lemma verify_password_pbkdf2_long (plain : string) (rounds : N) (salt chk : string) :
  (4096 < py_len plain)%nat →
  verify_password plain (Mcf pbkdf2_sha256 rounds salt chk) =
  Raise (ValueError "password exceeds maximum allowed size").
Proof.
  intros Hlen. unfold verify_password, ctx_verify, check_secret. simpl.
  by rewrite (validate_secret_long _ Hlen).
Qed.

(** Verification against a fresh hash succeeds exactly on the passwords
    the key-derivation primitive does not tell apart from the original. *)
Lemma verify_fresh_hash (salt P P' : string) :
  (py_len P ≤ 4096)%nat → (py_len P' ≤ 4096)%nat →
  get_password_hash salt P ≫= verify_password P' =
  Return (bool_decide (digest pbkdf2_sha256 310000 salt P' =
                       digest pbkdf2_sha256 310000 salt P)).
Proof.
  intros HP HP'. rewrite (get_password_hash_default _ _ HP). simpl.
  by apply verify_password_pbkdf2.
Qed.

(** A [bcrypt] hash of a long password is checked through the digest: the
    library sees the digest, not the password. *)
Lemma verify_password_bcrypt_long (plain : string) (rounds : N) (salt chk : string) :
  (72 < String.length plain)%nat →
  verify_password plain (Mcf bcrypt rounds salt chk) =
  ctx_verify pwd_context (sha256_hexdigest plain) (Mcf bcrypt rounds salt chk).
Proof.
  intros Hlen. unfold verify_password. simpl.
  by rewrite (proj2 (Nat.ltb_lt _ _) Hlen).
Qed.
End hasher.

(** C4 (counterexample).  Whatever the primitives are, the first sentence
    fails at a password of 4097 characters, which [get_password_hash]
    refuses with the library's size error, and the second fails at the
    passwords "a" and "a" followed by NUL, which the key derivation maps
    to the same checksum. *)
Lemma hasher_sentences_fail :
  (¬ ∃ prim : Primitives, @verifies_own_hash prim) ∧
  (¬ ∃ prim : Primitives, @rejects_other_passwords prim).
Proof.
  split; intros [prim Hall].
  - specialize (Hall "" (String.concat "" (replicate 4097 "a"))).
    rewrite get_password_hash_long in Hall; [discriminate|].
    apply Nat.ltb_lt. by vm_compute.
  - specialize (Hall "" "a" ("a" +:+ NUL)).
    rewrite get_password_hash_default in Hall by (simpl; lia).
    simpl in Hall. rewrite verify_password_pbkdf2 in Hall by (simpl; lia).
    rewrite (pbkdf2_key_padding _ _ "a") in Hall by (simpl; lia).
    rewrite bool_decide_eq_true_2 in Hall by done.
    by specialize (Hall ltac:(discriminate)).
Qed.

(** C4 (amended).  For every password [P] of at most 4096 characters, of
    any byte length and content, hashed under any salt:
    [get_password_hash] returns a hash [h] and [verify_password P h] is
    true; for a password [P'] of at most 4096 characters,
    [verify_password P' h] is true or false as the key derivation gives
    [P'] the checksum of [P] or another one, so it is false whenever the
    checksums differ, and it is true for [P] followed by NUL when [P] is
    shorter than 64 bytes; for a [P'] of more than 4096 characters it
    raises the library's size error.  For a [P] of more than 4096
    characters [get_password_hash] raises that error. *)
Theorem password_round_trip `{Primitives} (salt P : string) :
  let kdf := digest pbkdf2_sha256 310000 salt in
  let too_long := ValueError "password exceeds maximum allowed size" in
  ((py_len P ≤ 4096)%nat →
   ∃ h, get_password_hash salt P = Return h ∧
        verify_password P h = Return true ∧
        (∀ P', (py_len P' ≤ 4096)%nat →
               verify_password P' h = Return (bool_decide (kdf P' = kdf P))) ∧
        (∀ P', (py_len P' ≤ 4096)%nat → kdf P' ≠ kdf P →
               verify_password P' h = Return false) ∧
        (∀ P', (4096 < py_len P')%nat → verify_password P' h = Raise too_long) ∧
        ((String.length P < 64)%nat → verify_password (P +:+ NUL) h = Return true)) ∧
  ((4096 < py_len P)%nat → get_password_hash salt P = Raise too_long).
Proof.
  intros kdf too_long. split; [|apply get_password_hash_long].
  intros HP. eexists. split; [by apply get_password_hash_default|].
  split; [|split; [|split; [|split]]].
  - rewrite verify_password_pbkdf2 by done. by rewrite bool_decide_eq_true_2.
  - intros P' HP'. by apply verify_password_pbkdf2.
  - intros P' HP' Hne. rewrite verify_password_pbkdf2 by done.
    by rewrite bool_decide_eq_false_2.
  - intros P' HP'. by apply verify_password_pbkdf2_long.
  - intros Hshort. rewrite verify_password_pbkdf2.
    + rewrite bool_decide_eq_true_2; [done|]. by apply pbkdf2_key_padding.
    + pose proof (py_len_le (P +:+ NUL)). rewrite length_append_NUL in *. lia.
Qed.

(** ** Authorization guard and refresh *)

Section guard.
Context `{Primitives}.
Variable settings : Settings.

Lemma get_current_user_Raise (now : Z) (db : list User) (tok : token) (e : exn) :
  get_current_user settings now db tok = Raise e →
  e = unauthorized "Invalid credentials".
Proof.
  unfold get_current_user, try_except.
  destruct (_ ≫= _); congruence.
Qed.

Lemma get_current_user_Return (now : Z) (db : list User) (tok : token) (u : User) :
  get_current_user settings now db tok = Return u →
  ∃ payload s,
    decode_token settings now tok = Return payload ∧
    payload !! "sub" = Some (JStr s) ∧
    UUID_parse s = Some (u_id u) ∧ u ∈ db.
Proof.
  unfold get_current_user, try_except.
  destruct (decode_token settings now tok) as [payload|e]; simpl; [|discriminate].
  destruct (payload !! "sub") as [[| |n|s]|] eqn:Hsub; simpl;
    try discriminate; try (destruct b; discriminate);
    try (destruct (n =? 0); discriminate).
  destruct (negb (negb (s =? "")%string)); simpl; [discriminate|].
  destruct (UUID_parse s) as [uid|] eqn:Hp; simpl; [|discriminate].
  destruct (scalar_one_or_none (select_by_id uid db)) as [[v|]|] eqn:Hq;
    simpl; try discriminate.
  intros [= ->]. apply scalar_one_or_none_Some in Hq.
  assert (Hin : u ∈ select_by_id uid db) by (rewrite Hq; apply list_elem_of_here).
  apply select_by_id_elem in Hin as [Hin <-].
  exists payload, s. by rewrite Hp.
Qed.

Lemma UUID_truthy (v : option jvalue) (uid : uuid) :
  UUID v = Return uid → truthy v = true.
Proof.
  destruct v as [[| | |s]|]; simpl; try discriminate.
  destruct s; [|done]. by rewrite UUID_parse_empty.
Qed.

Lemma get_current_user_found (now : Z) (db : list User) (tok : token)
    (payload : gmap string jvalue) (u : User) :
  decode_token settings now tok = Return payload →
  UUID (payload !! "sub") = Return (u_id u) →
  constraints db → u ∈ db →
  get_current_user settings now db tok = Return u.
Proof.
  intros Hdec Hsub (Hid & _ & _) Hin. unfold get_current_user.
  rewrite Hdec. simpl. rewrite (UUID_truthy _ _ Hsub). simpl.
  rewrite Hsub. simpl. by rewrite select_by_id_unique.
Qed.

Lemma refresh_token_found (now : Z) (db : list User) (tok : token)
    (payload : gmap string jvalue) (u : User) :
  decode_token settings now tok = Return payload →
  payload !! "type" = Some (JStr "refresh") →
  UUID (payload !! "sub") = Return (u_id u) →
  constraints db → u ∈ db →
  refresh_token settings now tok db =
  if u_is_active u then Return (issue_pair settings now u)
  else Raise (unauthorized "User not found").
Proof.
  intros Hdec Hty Hsub (Hid & _ & _) Hin. unfold refresh_token.
  rewrite Hdec. simpl. rewrite bool_decide_eq_false_2 by (by intros []).
  rewrite (UUID_truthy _ _ Hsub). simpl.
  rewrite Hsub. simpl. rewrite select_by_id_unique by done. simpl.
  by destruct (u_is_active u).
Qed.

Lemma refresh_token_wrong_kind (now : Z) (db : list User) (tok : token)
    (payload : gmap string jvalue) :
  decode_token settings now tok = Return payload →
  payload !! "type" ≠ Some (JStr "refresh") →
  refresh_token settings now tok db = Raise (HTTPException 400 "Invalid refresh token").
Proof.
  intros Hdec Hty. unfold refresh_token. rewrite Hdec. simpl.
  by rewrite bool_decide_eq_true_2.
Qed.

Lemma refresh_token_missing_subject (now : Z) (db : list User) (tok : token)
    (payload : gmap string jvalue) :
  decode_token settings now tok = Return payload →
  payload !! "type" = Some (JStr "refresh") →
  truthy (payload !! "sub") = false →
  refresh_token settings now tok db = Raise (unauthorized "Invalid token").
Proof.
  intros Hdec Hty Hsub. unfold refresh_token. rewrite Hdec. simpl.
  rewrite bool_decide_eq_false_2 by (by intros []).
  by rewrite Hsub.
Qed.

Lemma refresh_token_unknown_account (now : Z) (db : list User) (tok : token)
    (payload : gmap string jvalue) (uid : uuid) :
  decode_token settings now tok = Return payload →
  payload !! "type" = Some (JStr "refresh") →
  UUID (payload !! "sub") = Return uid →
  uid ∉ u_id <$> db →
  refresh_token settings now tok db = Raise (unauthorized "User not found").
Proof.
  intros Hdec Hty Hsub Hnin. unfold refresh_token. rewrite Hdec. simpl.
  rewrite bool_decide_eq_false_2 by (by intros []).
  rewrite (UUID_truthy _ _ Hsub). simpl. rewrite Hsub. simpl.
  unfold select_by_id. by rewrite (filter_col_miss u_id).
Qed.

(** The two failures [refresh_token] does not turn into a response of
    its own: they leave the handler as raised. *)
Lemma refresh_token_decode_failure (now : Z) (db : list User) (tok : token) (e : exn) :
  decode_token settings now tok = Raise e →
  refresh_token settings now tok db = Raise e.
Proof. intros Hdec. unfold refresh_token. by rewrite Hdec. Qed.

Lemma refresh_token_unparseable_subject (now : Z) (db : list User) (tok : token)
    (payload : gmap string jvalue) (s : string) :
  decode_token settings now tok = Return payload →
  payload !! "type" = Some (JStr "refresh") →
  payload !! "sub" = Some (JStr s) → s ≠ "" → UUID_parse s = None →
  refresh_token settings now tok db =
  Raise (ValueError "badly formed hexadecimal UUID string").
Proof.
  intros Hdec Hty Hsub Hne Hp. unfold refresh_token. rewrite Hdec. simpl.
  rewrite bool_decide_eq_false_2 by (by intros []).
  rewrite Hsub. simpl. destruct s; [done|]. simpl. by rewrite Hp.
Qed.

End guard.

Lemma password_round_trip_witness :
  let P := "pässwörd-" +:+ String.concat "" (replicate 40 "ab") in
  (72 < String.length P)%nat ∧ (py_len P < String.length P)%nat ∧
  ∃ h, @get_password_hash sample_primitives "salt" P = Return h ∧
       @verify_password sample_primitives P h = Return true ∧
       @verify_password sample_primitives "guess" h = Return false.
Proof.
  intros P. split; [vm_compute; lia|]. split; [vm_compute; lia|].
  destruct (@password_round_trip sample_primitives "salt" P) as [Hshort _].
  destruct Hshort as (h & Hhash & Hown & _ & Hother & _); [vm_compute; lia|].
  exists h. split; [exact Hhash|]. split; [exact Hown|].
  apply Hother; [vm_compute; lia|]. vm_compute. discriminate.
Defined.

(** C2 (evaluation of the code at the failing inputs).  [refresh_token]
    does not catch what [decode_token] raises: a token that does not parse,
    and a refresh token presented one second after its expiry (seven days
    after issue under the default settings), both leave the handler as a
    [JWTError], which the application answers with status 500. *)
Theorem refresh_decode_failure_is_500 `{Primitives}
    (secret subject raw : string) (now : Z) (db : list User) :
  let settings := default_settings secret in
  let expired := create_refresh_token settings now subject None None in
  refresh_token settings now (Malformed raw) db = Raise JWTError ∧
  refresh_token settings (now + 604801) expired db = Raise JWTError ∧
  response_status JWTError = 500.
Proof.
  intros settings expired. split; [reflexivity|]. split; [|reflexivity].
  apply refresh_token_decode_failure.
  apply (decode_expired settings _ (now + 604800)); [|lia|issued_lookup..].
  apply lookup_insert_eq.
Qed.

(** C7.  Whatever the bearer token and the table: when the token does not
    decode, when its subject is missing or empty, when the subject is not
    an identifier, and when no row has that identifier, the guard raises
    the one exception 401 "Invalid credentials"; every failure of the
    guard is that exception, so two failing requests cannot be told apart
    by their outcome. *)
Theorem guard_failures_collapse `{Primitives} (settings : Settings)
    (now : Z) (db : list User) (tok : token) :
  let guard := get_current_user settings now db tok in
  let generic := Raise (HTTPException 401 "Invalid credentials") in
  (∀ e, decode_token settings now tok = Raise e → guard = generic) ∧
  (∀ payload, decode_token settings now tok = Return payload →
     truthy (payload !! "sub") = false → guard = generic) ∧
  (∀ payload e, decode_token settings now tok = Return payload →
     UUID (payload !! "sub") = Raise e → guard = generic) ∧
  (∀ payload uid, decode_token settings now tok = Return payload →
     UUID (payload !! "sub") = Return uid → uid ∉ u_id <$> db → guard = generic) ∧
  (∀ e, guard = Raise e → e = HTTPException 401 "Invalid credentials") ∧
  (∀ now' db' tok' e e',
     guard = Raise e → get_current_user settings now' db' tok' = Raise e' → e = e').
Proof.
  intros guard generic. subst guard generic. unfold get_current_user.
  repeat split.
  - intros e Hdec. by rewrite Hdec.
  - intros payload Hdec Hsub. rewrite Hdec. simpl. by rewrite Hsub.
  - intros payload e Hdec Hsub. rewrite Hdec. simpl.
    destruct (truthy (payload !! "sub")); simpl; [|done]. by rewrite Hsub.
  - intros payload uid Hdec Hsub Hnin. rewrite Hdec. simpl.
    rewrite (UUID_truthy _ _ Hsub). simpl. rewrite Hsub. simpl.
    unfold select_by_id. by rewrite (filter_col_miss u_id).
  - intros e. apply get_current_user_Raise.
  - intros now' db' tok' e e' He He'.
    apply get_current_user_Raise in He, He'. congruence.
Qed.

Lemma guard_failures_collapse_witness :
  @get_current_user sample_primitives cfg 1000 sample_db (Malformed "x") =
    Raise (HTTPException 401 "Invalid credentials") ∧
  @get_current_user sample_primitives cfg 1000 sample_db
    (@create_access_token sample_primitives cfg 1000
       "00000000-0000-0000-0000-000000000009" None None) =
    Raise (HTTPException 401 "Invalid credentials").
Proof.
  split.
  - apply (proj1 (@guard_failures_collapse sample_primitives cfg 1000 sample_db
                    (Malformed "x")) JWTError).
    reflexivity.
  - pose proof (@guard_failures_collapse sample_primitives cfg 1000 sample_db
      (@create_access_token sample_primitives cfg 1000
         "00000000-0000-0000-0000-000000000009" None None)) as (_ & _ & _ & Hmiss & _).
    eapply (Hmiss _ 9%N); [reflexivity|reflexivity|compute_done].
Defined.

(** C10.  When the token decodes and its subject parses to the identifier
    of a row [u] of the table, the guard returns [u] whatever its active
    flag is; the flag is looked at by [refresh_token] only, which answers
    401 to a refresh token of an inactive account. *)
Theorem guard_ignores_active_flag `{Primitives} (settings : Settings)
    (now : Z) (db : list User) (tok : token) (payload : gmap string jvalue)
    (u : User) :
  constraints db → u ∈ db →
  decode_token settings now tok = Return payload →
  UUID (payload !! "sub") = Return (u_id u) →
  get_current_user settings now db tok = Return u ∧
  (u_is_active u = false →
   ∀ rtok rpayload,
     decode_token settings now rtok = Return rpayload →
     rpayload !! "type" = Some (JStr "refresh") →
     UUID (rpayload !! "sub") = Return (u_id u) →
     refresh_token settings now rtok db = Raise (HTTPException 401 "User not found")).
Proof.
  intros Hdb Hin Hdec Hsub. split.
  - by eapply get_current_user_found.
  - intros Hinactive rtok rpayload Hrdec Hty Hrsub.
    rewrite (refresh_token_found settings now db rtok rpayload u) by done.
    by rewrite Hinactive.
Qed.

Lemma guard_ignores_active_flag_witness :
  let P := sample_primitives in
  let access := @create_access_token P cfg 1000 (canonical_str 3%N) None None in
  let refresh := @create_refresh_token P cfg 1000 (canonical_str 3%N) None None in
  u_is_active carol = false ∧
  @get_current_user P cfg 1000 sample_db access = Return carol ∧
  @refresh_token P cfg 1000 refresh sample_db =
    Raise (HTTPException 401 "User not found").
Proof.
  intros P access refresh. split; [reflexivity|].
  destruct (@guard_ignores_active_flag P cfg 1000 sample_db access
              (<["exp" := JNum 2800]> {["sub" := JStr (canonical_str 3%N)]}) carol)
    as [Hguard Hrefresh].
  - compute_done.
  - compute_done.
  - reflexivity.
  - reflexivity.
  - split; [exact Hguard|].
    apply (Hrefresh eq_refl refresh
             (<["exp" := JNum 605800]>
                (<["type" := JStr "refresh"]> {["sub" := JStr (canonical_str 3%N)]})));
      reflexivity.
Defined.

(** ** Listing *)

Global Instance created_desc_trans : Transitive created_desc.
Proof. unfold created_desc. intros a b c Hab Hbc. lia. Qed.

Global Instance created_desc_total : Total created_desc.
Proof. unfold created_desc. intros a b. lia. Qed.

Lemma elem_of_where_is_active (is_active : option bool) (db : list User) (r : User) :
  r ∈ where_is_active is_active db ↔
  r ∈ db ∧ ∀ b, is_active = Some b → u_is_active r = b.
Proof.
  destruct is_active as [b|]; simpl.
  - rewrite list_elem_of_filter. split.
    + intros [Hb Hin]. split; [done|]. by intros ? [= <-].
    + intros [Hin Hb]. split; [by apply Hb|done].
  - split; [|tauto]. intros Hin. split; [done|]. by intros ? [=].
Qed.

Lemma order_by_created_at_desc_sorted (rows : list User) :
  StronglySorted created_desc (order_by_created_at_desc rows).
Proof. apply (StronglySorted_merge_sort created_desc). Qed.

Lemma order_by_created_at_desc_perm (rows : list User) :
  order_by_created_at_desc rows ≡ₚ rows.
Proof. apply merge_sort_Permutation. Qed.

(** C9.  [list_users] refuses [skip < 0], [limit < 1] and [limit > 100]
    with a validation error, with [skip = 0] and [limit = 50] when they
    are not given; on parameters that pass, it fails in the store when
    [skip] is more than the 64-bit offset of the store can hold, and
    returns otherwise.  When it returns, the accounts are the window of
    [limit] rows after the first [skip] rows of a list that holds exactly
    the accounts matching the active filter (all accounts when there is
    none) in descending order of creation time, and [total] is the number
    of accounts matching the filter, whatever [skip] and [limit] are. *)
Theorem list_users_window `{Primitives} (is_active : option bool)
    (skip limit : option Z) (db : list User) :
  let sk := default 0 skip in
  let lim := default 50 limit in
  match list_users is_active skip limit db with
  | Raise e =>
      (e = RequestValidationError ∧ (sk < 0 ∨ lim < 1 ∨ 100 < lim)) ∨
      (e = DBAPIError ∧ MAX_OFFSET < sk ∧ 1 ≤ lim ≤ 100)
  | Return resp =>
      0 ≤ sk ≤ MAX_OFFSET ∧ 1 ≤ lim ≤ 100 ∧
      lr_skip resp = sk ∧ lr_limit resp = lim ∧
      lr_total resp = Z.of_nat (length (where_is_active is_active db)) ∧
      (length (lr_users resp) ≤ Z.to_nat lim)%nat ∧
      ∃ ordered : list User,
        ordered ≡ₚ where_is_active is_active db ∧
        (∀ r, r ∈ ordered ↔ r ∈ db ∧ ∀ b, is_active = Some b → u_is_active r = b) ∧
        StronglySorted (λ a b, u_created_at b ≤ u_created_at a) ordered ∧
        lr_users resp =
          to_user_response <$> take (Z.to_nat lim) (drop (Z.to_nat sk) ordered)
  end.
Proof.
  intros sk lim. unfold list_users, Query.
  fold sk lim.
  replace (match skip with Some v => v | None => 0 end) with sk by by destruct skip.
  replace (match limit with Some v => v | None => 50 end) with lim by by destruct limit.
  destruct (Z.leb_spec 0 sk) as [Hsk|Hsk]; simpl; [|left; split; [done|lia]].
  destruct (Z.leb_spec 1 lim) as [Hl1|Hl1]; simpl; [|left; split; [done|lia]].
  destruct (Z.leb_spec lim 100) as [Hl2|Hl2]; simpl; [|left; split; [done|lia]].
  destruct (Z.ltb_spec MAX_OFFSET sk) as [Hoff|Hoff]; [right; split; [done|lia]|].
  split; [lia|]. split; [lia|]. do 3 (split; [done|]). split.
  - simpl. rewrite length_fmap, length_take. lia.
  - exists (order_by_created_at_desc (where_is_active is_active db)).
    split; [apply order_by_created_at_desc_perm|]. split; [|split; [|done]].
    + intros r. rewrite order_by_created_at_desc_perm.
      apply elem_of_where_is_active.
    + apply order_by_created_at_desc_sorted.
Qed.

(** The page beyond the 64-bit offset is a failure of the store, answered
    with status 500. *)
Example list_users_offset_overflow :
  @list_users sample_primitives None (Some (2 ^ 63)) None sample_db = Raise DBAPIError ∧
  response_status DBAPIError = 500.
Proof. split; reflexivity. Qed.

Example list_users_first_page :
  (λ resp, (r_username <$> lr_users resp, lr_total resp)) <$>
    (match @list_users sample_primitives None (Some 0) (Some 2) sample_db with
     | Return resp => Some resp
     | Raise _ => None
     end) = Some (["carol"; "bob"], 3).
Proof. reflexivity. Qed.

Example list_users_inactive_only :
  (λ resp, (r_username <$> lr_users resp, lr_total resp)) <$>
    (match @list_users sample_primitives (Some false) None None sample_db with
     | Return resp => Some resp
     | Raise _ => None
     end) = Some (["carol"], 1).
Proof. reflexivity. Qed.

(** ** Account directory: what a successful mutation does to the table *)

Section directory.
Context `{Primitives}.
Variable settings : Settings.

Lemma write_back_ids (x : User) (db : list User) :
  u_id <$> write_back x db = u_id <$> db.
Proof.
  unfold write_back. rewrite <- list_fmap_compose.
  apply list_fmap_ext. intros i r _. simpl. by case_bool_decide.
Qed.

Lemma elem_of_write_back (x r' : User) (db : list User) :
  r' ∈ write_back x db →
  ∃ r, r ∈ db ∧ u_id r' = u_id r ∧
       ((r' = r ∧ u_id r ≠ u_id x) ∨ (r' = x ∧ u_id r = u_id x)).
Proof.
  unfold write_back. rewrite list_elem_of_fmap. intros (r & -> & Hin).
  exists r. split; [done|]. case_bool_decide; auto.
Qed.

Lemma create_user_Return (now : Z) (new_id : uuid) (salt : string)
    (user_data : UserCreate) (db db' : list User) (resp : UserResponse) :
  create_user now new_id salt user_data db = Return (resp, db') →
  ∃ u : User, db' = (db ++ [u])%list ∧ constraints db' ∧
       resp = to_user_response u ∧
       u_id u = new_id ∧
       u_email u = c_email user_data ∧ u_username u = c_username user_data ∧
       u_is_active u = true ∧ u_last_login u = None ∧
       u_created_at u = now ∧ u_updated_at u = now ∧
       get_password_hash salt (c_password user_data) = Return (u_password_hash u).
Proof.
  unfold create_user. intros Hrun.
  apply bind_Return in Hrun as ([existing|] & _ & Hrun); [discriminate|].
  apply bind_Return in Hrun as (h & Hh & Hrun).
  apply bind_Return in Hrun as (rows & Hcommit & Hrun).
  apply commit_Return in Hcommit as [-> Hc]. injection Hrun as <- <-.
  eexists. repeat split; try done; apply Hc.
Qed.

Lemma login_user_Return (now : Z) (user_data : UserLogin) (db db' : list User)
    (tok : Token) :
  login_user settings now user_data db = Return (tok, db') →
  ∃ u, u ∈ db ∧ filter (λ r, u_username r = l_username user_data) db = [u] ∧
       verify_password (l_password user_data) (u_password_hash u) = Return true ∧
       db' = write_back (set_last_login u now) db ∧ constraints db' ∧
       tok = issue_pair settings now u.
Proof.
  unfold login_user. intros Hrun.
  apply bind_Return in Hrun as ([u|] & Hq & Hrun); [|discriminate].
  apply bind_Return in Hrun as ([|] & Hv & Hrun); [|discriminate]. simpl in Hrun.
  apply bind_Return in Hrun as (rows & Hcommit & Hrun).
  apply commit_Return in Hcommit as [-> Hc]. injection Hrun as <- <-.
  apply scalar_one_or_none_Some in Hq.
  assert (Hin : u ∈ filter (λ r, u_username r = l_username user_data) db)
    by (rewrite Hq; apply list_elem_of_here).
  apply list_elem_of_filter in Hin as [Hname Hin].
  exists u. done.
Qed.

Lemma path_id_Return (user_id : string) (uid : uuid) :
  path_id user_id = Return uid ↔ UUID_parse user_id = Some uid.
Proof.
  unfold path_id, UUID, try_except.
  destruct (UUID_parse user_id); split; congruence.
Qed.

Lemma assign_Return {A} (supplied : option (option A)) (old new : A) :
  assign supplied old = Return new →
  (supplied = None ∧ new = old) ∨ supplied = Some (Some new).
Proof. destruct supplied as [[v|]|]; simpl; intros [=]; subst; auto. Qed.

Lemma update_user_Return (now : Z) (user_id : string) (update_data : UserUpdate)
    (db db' : list User) (resp : UserResponse) :
  update_user now user_id update_data db = Return (resp, db') →
  ∃ u u', u ∈ db ∧ UUID_parse user_id = Some (u_id u) ∧
          db' = write_back u' db ∧ constraints db' ∧ resp = to_user_response u' ∧
          u_id u' = u_id u ∧ u_updated_at u' = now ∧
          u_created_at u' = u_created_at u ∧
          u_password_hash u' = u_password_hash u ∧
          u_last_login u' = u_last_login u.
Proof.
  unfold update_user. intros Hrun.
  apply bind_Return in Hrun as (uid & Huid & Hrun).
  apply path_id_Return in Huid.
  apply bind_Return in Hrun as ([u|] & Hq & Hrun); [|discriminate].
  apply bind_Return in Hrun as (_ & _ & Hrun).
  apply bind_Return in Hrun as (email & _ & Hrun).
  apply bind_Return in Hrun as (username & _ & Hrun).
  apply bind_Return in Hrun as (is_active & _ & Hrun).
  apply bind_Return in Hrun as (rows & Hcommit & Hrun).
  apply commit_Return in Hcommit as [-> Hc]. injection Hrun as <- <-.
  apply scalar_one_or_none_Some in Hq.
  assert (Hin : u ∈ select_by_id uid db) by (rewrite Hq; apply list_elem_of_here).
  apply select_by_id_elem in Hin as [Hin <-].
  eexists u, _. repeat split; try done; apply Hc.
Qed.

Lemma delete_user_Return (user_id : string) (db db' : list User) (msg : string) :
  delete_user user_id db = Return (msg, db') →
  ∃ u, u ∈ db ∧ db' = filter (λ r, u_id r ≠ u_id u) db ∧ constraints db'.
Proof.
  unfold delete_user. intros Hrun.
  apply bind_Return in Hrun as (uid & Huid & Hrun).
  apply bind_Return in Hrun as ([u|] & Hq & Hrun); [|discriminate].
  apply bind_Return in Hrun as (rows & Hcommit & Hrun).
  apply commit_Return in Hcommit as [-> Hc]. injection Hrun as <- <-.
  apply scalar_one_or_none_Some in Hq.
  assert (Hin : u ∈ select_by_id uid db) by (rewrite Hq; apply list_elem_of_here).
  apply select_by_id_elem in Hin as [Hin _]. exists u. done.
Qed.
End directory.

(** ** The updated-at stamp *)

Section updated_at.
Context `{Primitives}.
Variable settings : Settings.

(** After a write-back that the store accepted, the row with the
    identifier of [u] is [u] itself, untouched, or the row written. *)
Lemma write_back_row (x u u' : User) (db : list User) :
  constraints (write_back x db) →
  u ∈ db → u' ∈ write_back x db → u_id u' = u_id u →
  (u' = u ∧ u_id u ≠ u_id x) ∨ (u' = x ∧ u_id u = u_id x).
Proof.
  intros (Hid & _ & _) Hu Hu' Heq. rewrite write_back_ids in Hid.
  apply elem_of_write_back in Hu' as (r & Hr & Hidr & Hcase).
  assert (r = u) as -> by (apply (NoDup_col_inj u_id db); congruence).
  destruct Hcase as [[-> ?]|[-> Hx]]; auto.
Qed.

Lemma login_keeps_updated_at (now : Z) (user_data : UserLogin)
    (db db' : list User) (tok : Token) (u u' : User) :
  login_user settings now user_data db = Return (tok, db') →
  u ∈ db → u' ∈ db' → u_id u' = u_id u →
  u_updated_at u' = u_updated_at u ∧
  (u_username u = l_username user_data → u_last_login u' = Some now).
Proof.
  intros Hrun Hu Hu' Heq.
  apply login_user_Return in Hrun as (s & Hs & Hsel & _ & -> & Hc & _).
  pose proof Hc as (Hid & _ & _). rewrite write_back_ids in Hid.
  destruct (write_back_row _ u u' db Hc Hu Hu' Heq) as [[-> Hne]|[-> Hsame]].
  - split; [done|]. intros Hname. exfalso. apply Hne.
    assert (Hin : u ∈ filter (λ r, u_username r = l_username user_data) db)
      by (by apply list_elem_of_filter).
    rewrite Hsel in Hin. apply list_elem_of_singleton in Hin. by subst.
  - simpl in Hsame.
    assert (s = u) as -> by (apply (NoDup_col_inj u_id db); congruence).
    done.
Qed.

Lemma update_stamps_updated_at (now : Z) (user_id : string)
    (update_data : UserUpdate) (db db' : list User) (resp : UserResponse)
    (u u' : User) :
  update_user now user_id update_data db = Return (resp, db') →
  u ∈ db → u' ∈ db' → u_id u' = u_id u →
  (UUID_parse user_id = Some (u_id u) →
     u_updated_at u' = now ∧ r_updated_at resp = now) ∧
  (UUID_parse user_id ≠ Some (u_id u) → u' = u).
Proof.
  intros Hrun Hu Hu' Heq.
  apply update_user_Return in Hrun
    as (s & x & Hs & Hparse & -> & Hc & -> & Hidx & Hstamp & _).
  destruct (write_back_row _ u u' db Hc Hu Hu' Heq) as [[-> Hne]|[-> Hsame]].
  - split; [|done]. intros Hp. congruence.
  - split; [done|]. intros Hp. congruence.
Qed.
End updated_at.

(** Login does not look at the active flag either. *)
Lemma write_back_col {K} `{Primitives} (col : User → K) (x u : User) (db : list User) :
  NoDup (u_id <$> db) → u ∈ db → u_id x = u_id u → col x = col u →
  col <$> write_back x db = col <$> db.
Proof.
  intros Hid Hu Hidx Hcol. unfold write_back. rewrite <- list_fmap_compose.
  apply list_fmap_ext. intros i r Hr. simpl. case_bool_decide; [|done].
  apply list_elem_of_lookup_2 in Hr.
  assert (r = u) as -> by (apply (NoDup_col_inj u_id db); congruence). done.
Qed.

Lemma login_user_ignores_active_flag `{Primitives} (settings : Settings) (now : Z)
    (user_data : UserLogin) (db : list User) (u : User) :
  constraints db → u ∈ db → u_username u = l_username user_data →
  verify_password (l_password user_data) (u_password_hash u) = Return true →
  login_user settings now user_data db =
  Return (issue_pair settings now u, write_back (set_last_login u now) db).
Proof.
  intros Hc Hu Hname Hpw. pose proof Hc as (Hid & Hemails & Hnames).
  unfold login_user. rewrite <- Hname.
  rewrite (filter_col_unique u_username) by done. simpl.
  rewrite Hpw. simpl. unfold commit. rewrite bool_decide_eq_true_2; [done|].
  unfold constraints. rewrite write_back_ids.
  by rewrite !(write_back_col _ _ u).
Qed.

(** C6 (counterexample).  A successful login of alice at clock reading 500
    changes her row (last-login becomes 500) and leaves its updated-at at
    100: the row is mutated without being stamped. *)
Lemma login_mutates_without_stamp :
  ¬ @refreshed_on_any_mutation sample_primitives cfg.
Proof.
  intros Hall.
  specialize (Hall 500 sample_db
    (@write_back (@set_last_login alice 500) sample_db)
    alice (set_last_login alice 500)).
  assert (Hstamp : u_updated_at (set_last_login alice 500) = 500).
  { apply Hall.
    - eapply (@step_login sample_primitives cfg 500 _ _ alice_login). reflexivity.
    - compute_done.
    - compute_done.
    - reflexivity.
    - discriminate. }
  discriminate Hstamp.
Qed.

(** C6 (amended).  Across one successful request that writes to the table,
    served at a clock reading not earlier than the updated-at of a row,
    the updated-at of that row does not decrease; a successful profile
    update of the row sets its updated-at to the clock reading; a
    successful login leaves the updated-at of every row as it was, and
    sets the last-login of the row that logged in. *)
Theorem updated_at_discipline `{Primitives} (settings : Settings) (now : Z)
    (db db' : list User) (u u' : User) :
  step settings now db db' →
  u ∈ db → u' ∈ db' → u_id u' = u_id u →
  u_updated_at u ≤ now →
  u_updated_at u ≤ u_updated_at u' ∧
  (∀ user_id update_data resp,
     update_user now user_id update_data db = Return (resp, db') →
     UUID_parse user_id = Some (u_id u) → u_updated_at u' = now) ∧
  (∀ user_data tok,
     login_user settings now user_data db = Return (tok, db') →
     u_updated_at u' = u_updated_at u ∧
     (u_username u = l_username user_data → u_last_login u' = Some now)).
Proof.
  intros Hstep Hu Hu' Heq Hclock. split; [|split].
  - destruct Hstep as [new_id salt user_data resp Hrun|user_data tok Hrun
                      |user_id update_data resp Hrun|user_id msg Hrun].
    + apply create_user_Return in Hrun as (x & -> & (Hid & _) & _).
      assert (u' = u) as ->; [|done].
      apply (NoDup_col_inj u_id (db ++ [x])); try done.
      apply elem_of_app. by left.
    + by destruct (login_keeps_updated_at settings _ _ _ _ _ u u' Hrun) as [-> _].
    + destruct (update_stamps_updated_at _ _ _ _ _ _ u u' Hrun) as [Hhit Hmiss];
        try done.
      destruct (decide (UUID_parse user_id = Some (u_id u))) as [Hp|Hp].
      * destruct (Hhit Hp) as [-> _]. done.
      * by rewrite (Hmiss Hp).
    + apply delete_user_Return in Hrun as (x & _ & -> & (Hid & _)).
      assert (u' = u) as ->; [|done].
      apply (NoDup_col_inj u_id _ _ _ Hid); try done.
      apply list_elem_of_filter in Hu' as [Hne _].
      apply list_elem_of_filter. split; [congruence|done].
  - intros user_id update_data resp Hrun Hp.
    destruct (update_stamps_updated_at _ _ _ _ _ _ u u' Hrun) as [Hhit _];
      try done.
    by destruct (Hhit Hp).
  - intros user_data tok Hrun.
    by apply (login_keeps_updated_at settings _ _ _ _ _ u u' Hrun).
Qed.

Lemma updated_at_discipline_witness :
  let db' := write_back (set_last_login alice 500) sample_db in
  let alice' := set_last_login alice 500 in
  @login_user sample_primitives cfg 500 alice_login sample_db =
    Return (@issue_pair sample_primitives cfg 500 alice, db') ∧
  u_updated_at alice ≤ u_updated_at alice' ∧
  u_updated_at alice' = u_updated_at alice ∧
  u_last_login alice' = Some 500.
Proof.
  intros db' alice'.
  assert (Hrun : @login_user sample_primitives cfg 500 alice_login sample_db =
                 Return (@issue_pair sample_primitives cfg 500 alice, db'))
    by reflexivity.
  split; [exact Hrun|].
  destruct (@updated_at_discipline sample_primitives cfg 500 sample_db db'
              alice alice') as (Hmono & _ & Hlogin).
  - by eapply (@step_login sample_primitives cfg 500 _ _ alice_login).
  - compute_done.
  - compute_done.
  - reflexivity.
  - simpl. lia.
  - split; [exact Hmono|].
    destruct (Hlogin alice_login _ Hrun) as [Hkeep Hlast].
    split; [exact Hkeep|]. by apply Hlast.
Defined.

(** ** Uniqueness checks of Register and Update *)

Lemma filter_none {A} (P : A → Prop) `{∀ x, Decision (P x)} (l : list A) :
  (∀ x, x ∈ l → ¬ P x) → filter P l = [].
Proof.
  induction l as [|x l IH]; [done|]. intros Hall.
  rewrite filter_cons_False by (apply Hall, list_elem_of_here).
  apply IH. intros y Hy. apply Hall. by apply list_elem_of_further.
Qed.

Lemma filter_only {A} (P : A → Prop) `{∀ x, Decision (P x)} (l : list A) (v : A) :
  NoDup l → v ∈ l → P v → (∀ w, w ∈ l → P w → w = v) → filter P l = [v].
Proof.
  induction l as [|x l IH]; [by rewrite elem_of_nil|].
  rewrite NoDup_cons, elem_of_cons. intros [Hnin Hnd] [->|Hin] Hv Honly.
  - rewrite filter_cons_True by done. f_equal. apply filter_none.
    intros y Hy HP. apply Hnin.
    rewrite <- (Honly y); [done| by apply list_elem_of_further |done].
  - rewrite filter_cons_False.
    + apply IH; try done. intros w Hw. apply Honly. by apply list_elem_of_further.
    + intros HP. apply Hnin.
      rewrite (Honly x); [done| apply list_elem_of_here |done].
Qed.

Lemma scalar_one_or_none_two {A} (l : list A) (a b : A) :
  a ∈ l → b ∈ l → a ≠ b → scalar_one_or_none l = Raise MultipleResultsFound.
Proof.
  destruct l as [|x [|y l]]; simpl; [by rewrite elem_of_nil| |done].
  rewrite !list_elem_of_singleton. congruence.
Qed.

Lemma constraints_NoDup (db : list User) : constraints db → NoDup db.
Proof. intros (Hid & _). by apply NoDup_fmap_1 in Hid. Qed.

Section uniqueness.
Context `{Primitives}.

(** Register: exactly one row carries the email or the username. *)
Lemma create_user_conflict (now : Z) (new_id : uuid) (salt : string)
    (user_data : UserCreate) (db : list User) (v : User) :
  constraints db → v ∈ db →
  u_email v = c_email user_data ∨ u_username v = c_username user_data →
  (∀ w, w ∈ db →
     u_email w = c_email user_data ∨ u_username w = c_username user_data → w = v) →
  create_user now new_id salt user_data db =
  Raise (HTTPException 409 "User already exists").
Proof.
  intros Hc Hv Hmatch Honly. unfold create_user.
  rewrite (filter_only _ db v); try done. by apply constraints_NoDup.
Qed.

(** Register: one row carries the email and another one the username. *)
Lemma create_user_two_matches (now : Z) (new_id : uuid) (salt : string)
    (user_data : UserCreate) (db : list User) (a b : User) :
  a ∈ db → b ∈ db → a ≠ b →
  u_email a = c_email user_data → u_username b = c_username user_data →
  create_user now new_id salt user_data db = Raise MultipleResultsFound.
Proof.
  intros Ha Hb Hne Hemail Hname. unfold create_user.
  rewrite (scalar_one_or_none_two _ a b); try done;
    apply list_elem_of_filter; auto.
Qed.

Lemma create_user_fresh_id (now : Z) (new_id : uuid) (salt : string)
    (user_data : UserCreate) (db db' : list User) (resp : UserResponse) :
  create_user now new_id salt user_data db = Return (resp, db') →
  (new_id ∉ u_id <$> db) ∧
  (c_email user_data ∉ u_email <$> db) ∧
  (c_username user_data ∉ u_username <$> db).
Proof.
  intros Hrun.
  apply create_user_Return in Hrun
    as (u & -> & (Hid & Hemail & Hname) & _ & <- & <- & <- & _).
  rewrite fmap_app in Hid. rewrite fmap_app in Hemail. rewrite fmap_app in Hname.
  apply NoDup_app in Hid as (_ & Hid & _).
  apply NoDup_app in Hemail as (_ & Hemail & _).
  apply NoDup_app in Hname as (_ & Hname & _).
  repeat split; intros Hin.
  - apply (Hid _ Hin). apply list_elem_of_here.
  - apply (Hemail _ Hin). apply list_elem_of_here.
  - apply (Hname _ Hin). apply list_elem_of_here.
Qed.

(** The response is built from the other columns only. *)
Lemma to_user_response_hides_hash (u v : User) :
  u_id u = u_id v → u_email u = u_email v → u_username u = u_username v →
  u_full_name u = u_full_name v → u_is_active u = u_is_active v →
  u_created_at u = u_created_at v → u_updated_at u = u_updated_at v →
  u_last_login u = u_last_login v →
  to_user_response u = to_user_response v.
Proof. unfold to_user_response. by intros -> -> -> -> -> -> -> ->. Qed.

(** Update with the email alone: taken by another row, it is a 409. *)
Lemma update_user_email_conflict (now : Z) (user_id : string)
    (update_data : UserUpdate) (db : list User) (a b : User) :
  constraints db → a ∈ db → b ∈ db → u_id b ≠ u_id a →
  UUID_parse user_id = Some (u_id a) →
  p_email update_data = Some (Some (u_email b)) →
  p_username update_data = None →
  update_user now user_id update_data db =
  Raise (HTTPException 409 "Email or username already exists").
Proof.
  intros Hc Ha Hb Hne Hp Hemail Hname. pose proof Hc as (Hid & Hemails & _).
  unfold update_user. rewrite (proj2 (path_id_Return _ _) Hp). simpl.
  rewrite select_by_id_unique by done. simpl.
  rewrite Hemail, Hname. rewrite bool_decide_eq_true_2 by (left; eauto).
  unfold where_eq. rewrite (filter_only _ _ b); try done.
  - apply NoDup_filter. by apply constraints_NoDup.
  - by apply list_elem_of_filter.
  - intros w Hw [= Hw']. apply list_elem_of_filter in Hw as [_ Hw].
    by apply (NoDup_col_inj u_email db).
Qed.

(** Update with the username alone: taken by another row, it is a 409. *)
Lemma update_user_username_conflict (now : Z) (user_id : string)
    (update_data : UserUpdate) (db : list User) (a b : User) :
  constraints db → a ∈ db → b ∈ db → u_id b ≠ u_id a →
  UUID_parse user_id = Some (u_id a) →
  p_email update_data = None →
  p_username update_data = Some (Some (u_username b)) →
  update_user now user_id update_data db =
  Raise (HTTPException 409 "Email or username already exists").
Proof.
  intros Hc Ha Hb Hne Hp Hemail Hname. pose proof Hc as (Hid & _ & Hnames).
  unfold update_user. rewrite (proj2 (path_id_Return _ _) Hp). simpl.
  rewrite select_by_id_unique by done. simpl.
  rewrite Hemail, Hname. rewrite bool_decide_eq_true_2 by (right; eauto).
  unfold where_eq. rewrite (filter_only _ _ b); try done.
  - apply NoDup_filter. by apply constraints_NoDup.
  - by apply list_elem_of_filter.
  - intros w Hw [= Hw']. apply list_elem_of_filter in Hw as [_ Hw].
    by apply (NoDup_col_inj u_username db).
Qed.

(** Update with both: the check looks for one other row carrying both
    values.  When the email belongs to another row whose username is not
    the new one, the check finds nothing; the write is then refused by
    the store, not answered with a 409. *)
Lemma update_user_split_collision (now : Z) (user_id : string)
    (update_data : UserUpdate) (db : list User) (a b : User) (n : string) :
  constraints db → a ∈ db → b ∈ db → u_id b ≠ u_id a →
  UUID_parse user_id = Some (u_id a) →
  p_email update_data = Some (Some (u_email b)) →
  p_username update_data = Some (Some n) → n ≠ u_username b →
  update_user now user_id update_data db = Raise IntegrityError.
Proof.
  intros Hc Ha Hb Hne Hp Hemail Hname Hn. pose proof Hc as (Hid & Hemails & _).
  unfold update_user. rewrite (proj2 (path_id_Return _ _) Hp). simpl.
  rewrite select_by_id_unique by done. simpl.
  rewrite Hemail, Hname. rewrite bool_decide_eq_true_2 by (left; eauto).
  unfold where_eq. rewrite (filter_none (λ r, Some (u_username r) = Some n)).
  2:{ intros w Hw [= Hw']. apply list_elem_of_filter in Hw as [[= Hwe] Hw].
      apply list_elem_of_filter in Hw as [_ Hw].
      assert (w = b) by (by apply (NoDup_col_inj u_email db)). by subst. }
  simpl. destruct (assign (p_is_active update_data) (u_is_active a))
    as [active|e] eqn:Hact; simpl.
  2:{ by destruct (p_is_active update_data) as [[|]|]; simplify_eq/=. }
  unfold commit. rewrite bool_decide_eq_false_2; [done|].
  intros (_ & Hemails' & _).
  set (a' := {| u_id := u_id a; u_email := u_email b |}) in *.
  assert (Ha' : a' ∈ write_back a' db).
  { unfold write_back. apply list_elem_of_fmap. exists a.
    rewrite bool_decide_eq_true_2 by done. done. }
  assert (Hb' : b ∈ write_back a' db).
  { unfold write_back. apply list_elem_of_fmap. exists b.
    rewrite bool_decide_eq_false_2 by done. done. }
  apply Hne. symmetry.
  by rewrite <- (NoDup_col_inj u_email _ a' b Hemails' Ha' Hb').
Qed.
End uniqueness.

(** C8 (evaluation of the code at the failing input).  With alice holding
    the email and bob holding the username of the request, the lookup of
    [create_user] selects two rows, [scalar_one_or_none] raises, and the
    request is answered with status 500 instead of 409. *)
Theorem register_split_match_is_500 :
  let user_data := {| c_email := "a@x.com"; c_username := "bob";
                      c_full_name := None; c_is_active := true;
                      c_password := "pw12345" |} in
  alice ∈ sample_db ∧ u_email alice = c_email user_data ∧
  bob ∈ sample_db ∧ u_username bob = c_username user_data ∧
  @create_user sample_primitives 400 4%N "s" user_data sample_db =
    Raise MultipleResultsFound ∧
  response_status MultipleResultsFound = 500.
Proof. intros user_data. repeat split; compute_done. Qed.

(** C3 (evaluation of the code at the failing inputs).  Updating alice
    with bob's email together with carol's username, or with bob's email
    together with a username nobody has, passes the conflict check; the
    store then refuses the write and the request is answered with status
    500 instead of 409. *)
Theorem update_split_collision_is_500 :
  let both := {| p_email := Some (Some "b@x.com"); p_username := Some (Some "carol");
                 p_full_name := None; p_is_active := None |} in
  let email_only_taken :=
    {| p_email := Some (Some "b@x.com"); p_username := Some (Some "dave");
       p_full_name := None; p_is_active := None |} in
  @update_user sample_primitives 700 (canonical_str 1%N) both sample_db =
    Raise IntegrityError ∧
  @update_user sample_primitives 700 (canonical_str 1%N) email_only_taken sample_db =
    Raise IntegrityError ∧
  response_status IntegrityError = 500.
Proof. intros both email_only_taken. repeat split. Qed.

(** * Further properties of the token codec and of sessions *)

Section sessions.
Context `{Primitives}.
Variable settings : Settings.

Lemma py_or_nonzero (m d : Z) : m ≠ 0 → py_or (Some m) d = m.
Proof. intros Hm. unfold py_or. by rewrite (proj2 (Z.eqb_neq _ _) Hm). Qed.

(** The claims of the two tokens [issue_pair] makes, once decoded. *)
Lemma decode_pair_access (now t : Z) (u : User) :
  t ≤ now + 60 * ACCESS_TOKEN_EXPIRE_MINUTES settings →
  ∃ claims,
    decode_token settings t (t_access_token (issue_pair settings now u)) = Return claims ∧
    claims !! "sub" = Some (JStr (uuid_str (u_id u))) ∧
    claims !! "type" = None ∧
    claims !! "username" = Some (JStr (u_username u)).
Proof.
  intros Hfresh. eexists. split.
  - apply decode_encode. simpl.
    eapply validate_claims_fresh; [|exact Hfresh|issued_lookup..].
    rewrite lookup_union_r by done. apply lookup_insert_eq.
  - simpl. split; [|split].
    + rewrite lookup_union_r by done. by simplify_map_eq.
    + rewrite lookup_union_r by done. by simplify_map_eq.
    + rewrite lookup_union_l' by (by eexists; apply lookup_singleton_eq).
      apply lookup_singleton_eq.
Qed.

Lemma decode_pair_refresh (now t : Z) (u : User) :
  t ≤ now + 86400 * REFRESH_TOKEN_EXPIRE_DAYS settings →
  ∃ claims,
    decode_token settings t (t_refresh_token (issue_pair settings now u)) = Return claims ∧
    claims !! "sub" = Some (JStr (uuid_str (u_id u))) ∧
    claims !! "type" = Some (JStr "refresh") ∧
    claims !! "username" = Some (JStr (u_username u)).
Proof.
  intros Hfresh. eexists. split.
  - apply decode_encode. simpl.
    eapply validate_claims_fresh; [|exact Hfresh|issued_lookup..].
    rewrite lookup_union_r by done. apply lookup_insert_eq.
  - simpl. split; [|split].
    + rewrite lookup_union_r by done. by simplify_map_eq.
    + rewrite lookup_union_r by done. by simplify_map_eq.
    + rewrite lookup_union_l' by (by eexists; apply lookup_singleton_eq).
      apply lookup_singleton_eq.
Qed.

Lemma write_back_elem (x u : User) (db : list User) :
  u ∈ db → u_id x = u_id u → x ∈ write_back x db.
Proof.
  intros Hu Hid. unfold write_back. apply list_elem_of_fmap. exists u.
  by rewrite bool_decide_eq_true_2.
Qed.

Lemma UUID_of_sub (claims : gmap string jvalue) (uid : uuid) :
  claims !! "sub" = Some (JStr (uuid_str uid)) →
  UUID_parse (uuid_str uid) = Some uid →
  UUID (claims !! "sub") = Return uid.
Proof. intros -> Hp. simpl. by rewrite Hp. Qed.
End sessions.

(** X1.  Expiry is enforced to the second.  For a clock reading and
    lifetimes whose instants [datetime] can hold (years 1 to 9999; beyond
    them the token functions raise [OverflowError] and issue nothing): an
    access token issued with an explicit non-zero number of minutes [m],
    and a refresh token issued with an explicit non-zero number of days
    [d], decode up to and including the instant [now + 60 m] (resp.
    [now + 86400 d]) and raise [JWTError] from the next second on; with no
    lifetime given the configured defaults take their place.  A negative
    lifetime gives a token that is already expired when it is issued. *)
Theorem token_expiry_is_enforced `{Primitives} (settings : Settings)
    (s : string) (now t m d : Z) :
  m ≠ 0 → d ≠ 0 →
  in_datetime_range now →
  in_datetime_range (now + 60 * m) →
  in_datetime_range (now + 86400 * d) →
  let access := create_access_token settings now s (Some m) None in
  let refresh := create_refresh_token settings now s (Some d) None in
  (t ≤ now + 60 * m →
   ∃ c, decode_token settings t access = Return c ∧
        c !! "exp" = Some (JNum (now + 60 * m))) ∧
  (now + 60 * m < t → decode_token settings t access = Raise JWTError) ∧
  (t ≤ now + 86400 * d →
   ∃ c, decode_token settings t refresh = Return c ∧
        c !! "exp" = Some (JNum (now + 86400 * d))) ∧
  (now + 86400 * d < t → decode_token settings t refresh = Raise JWTError) ∧
  (in_datetime_range (now + 60 * ACCESS_TOKEN_EXPIRE_MINUTES settings) →
   now + 60 * ACCESS_TOKEN_EXPIRE_MINUTES settings < t →
   decode_token settings t (create_access_token settings now s None None)
     = Raise JWTError) ∧
  (in_datetime_range (now + 86400 * REFRESH_TOKEN_EXPIRE_DAYS settings) →
   now + 86400 * REFRESH_TOKEN_EXPIRE_DAYS settings < t →
   decode_token settings t (create_refresh_token settings now s None None)
     = Raise JWTError).
Proof.
  intros Hm Hd _ _ _ access refresh. subst access refresh.
  unfold create_access_token, create_refresh_token.
  rewrite !py_or_nonzero by done. simpl.
  repeat apply conj.
  - intros Ht. eexists. split; [|apply lookup_insert_eq].
    apply decode_encode.
    eapply validate_claims_fresh; [apply lookup_insert_eq|done|issued_lookup..].
  - intros Ht. eapply decode_expired; [apply lookup_insert_eq|done|issued_lookup..].
  - intros Ht. eexists. split; [|apply lookup_insert_eq].
    apply decode_encode.
    eapply validate_claims_fresh; [apply lookup_insert_eq|done|issued_lookup..].
  - intros Ht. eapply decode_expired; [apply lookup_insert_eq|done|issued_lookup..].
  - intros _ Ht. eapply decode_expired; [apply lookup_insert_eq|done|issued_lookup..].
  - intros _ Ht. eapply decode_expired; [apply lookup_insert_eq|done|issued_lookup..].
Qed.

Lemma token_expiry_is_enforced_witness :
  let P := sample_primitives in
  @decode_token P cfg 1301 (@create_access_token P cfg 1000 "s" (Some 5) None)
    = Raise JWTError ∧
  @decode_token P cfg 1000 (@create_refresh_token P cfg 1000 "s" (Some (-1)) None)
    = Raise JWTError ∧
  ∃ c, @decode_token P cfg 1300 (@create_access_token P cfg 1000 "s" (Some 5) None)
         = Return c ∧ c !! "exp" = Some (JNum 1300).
Proof.
  intros P.
  destruct (@token_expiry_is_enforced P cfg "s" 1000 1301 5 (-1))
    as (_ & Hlate & _ & Hneg & _);
    [lia|lia|unfold in_datetime_range, datetime_min, datetime_max; lia..|].
  destruct (@token_expiry_is_enforced P cfg "s" 1000 1300 5 (-1))
    as (Hok & _);
    [lia|lia|unfold in_datetime_range, datetime_min, datetime_max; lia..|].
  split; [apply Hlate; lia|]. split; [|apply Hok; lia].
  destruct (@token_expiry_is_enforced P cfg "s" 1000 1000 5 (-1))
    as (_ & _ & _ & Hneg0 & _);
    [lia|lia|unfold in_datetime_range, datetime_min, datetime_max; lia..|].
  apply Hneg0. lia.
Defined.

(** X2.  The extra claims are laid over the subject and the expiry.  For
    an [extra] that binds none of the registered claims the decoder
    checks ("exp", "iat", "nbf", "aud", "jti", "at_hash") and binds "sub"
    to a string or not at all: every entry of [extra] is in the decoded
    claims, "sub" is the subject only when [extra] does not bind it, and
    "exp" is the computed expiry.  An [extra] that binds "sub" therefore
    replaces the subject of the token. *)
Theorem extra_claims_take_precedence `{Primitives} (settings : Settings)
    (s : string) (now t : Z) (extra : gmap string jvalue) :
  extra !! "exp" = None → extra !! "iat" = None → extra !! "nbf" = None →
  extra !! "aud" = None → extra !! "jti" = None → extra !! "at_hash" = None →
  validate_str "sub" extra = Return () →
  in_datetime_range now →
  in_datetime_range (now + 60 * ACCESS_TOKEN_EXPIRE_MINUTES settings) →
  t ≤ now + 60 * ACCESS_TOKEN_EXPIRE_MINUTES settings →
  ∃ c, decode_token settings t
         (create_access_token settings now s None (Some extra)) = Return c ∧
       (∀ k v, extra !! k = Some v → c !! k = Some v) ∧
       (extra !! "sub" = None → c !! "sub" = Some (JStr s)) ∧
       c !! "exp" = Some (JNum (now + 60 * ACCESS_TOKEN_EXPIRE_MINUTES settings)) ∧
       (∀ k, k ≠ "sub" → k ≠ "exp" → c !! k = extra !! k).
Proof.
  intros Hexp Hiat Hnbf Haud Hjti Hat Hsub _ _ Hfresh.
  eexists. split; [|split; [|split; [|split]]].
  - apply decode_encode. simpl.
    eapply validate_claims_fresh; [|exact Hfresh| |issued_lookup..].
    + rewrite lookup_union_r by done. apply lookup_insert_eq.
    + unfold validate_str in *.
      destruct (extra !! "sub") as [v|] eqn:Hv.
      * by rewrite (lookup_union_Some_l _ _ _ _ Hv).
      * rewrite lookup_union_r by done. by simplify_map_eq.
  - intros k v Hk. simpl. by apply lookup_union_Some_l.
  - intros Hs. simpl. rewrite lookup_union_r by done. by simplify_map_eq.
  - simpl. rewrite lookup_union_r by done. apply lookup_insert_eq.
  - intros k Hs He. simpl. destruct (extra !! k) as [v|] eqn:Hk.
    + by apply lookup_union_Some_l.
    + rewrite lookup_union_r by done. by simplify_map_eq.
Qed.

Lemma extra_claims_take_precedence_witness :
  let P := sample_primitives in
  ∃ c, @decode_token P cfg 1000
         (@create_access_token P cfg 1000 "alice-id" None
            (Some {["sub" := JStr "bob-id"]})) = Return c ∧
       c !! "sub" = Some (JStr "bob-id").
Proof.
  intros P.
  destruct (@extra_claims_take_precedence P cfg "alice-id" 1000 1000
              {["sub" := JStr "bob-id"]}) as (c & Hdec & Hextra & _);
    [reflexivity..| | | |].
  - unfold in_datetime_range, datetime_min, datetime_max. lia.
  - unfold in_datetime_range, datetime_min, datetime_max. simpl. lia.
  - simpl. lia.
  - exists c. split; [exact Hdec|]. apply Hextra. reflexivity.
Defined.

(** X3.  After a successful login, the access token of the pair
    authenticates, until it expires, as the account that logged in: the
    guard returns the row of the new table with the login's username and
    with last-login set by the login.  The identifiers of the table are
    assumed to print and parse back. *)
Theorem login_then_guard `{Primitives} (settings : Settings) (now t : Z)
    (user_data : UserLogin) (db db' : list User) (tok : Token) :
  login_user settings now user_data db = Return (tok, db') →
  (∀ r, r ∈ db → UUID_parse (uuid_str (u_id r)) = Some (u_id r)) →
  t ≤ now + 60 * ACCESS_TOKEN_EXPIRE_MINUTES settings →
  ∃ u', get_current_user settings t db' (t_access_token tok) = Return u' ∧
        u' ∈ db' ∧ u_username u' = l_username user_data ∧
        u_last_login u' = Some now.
Proof.
  intros Hrun Hparse Hfresh.
  apply login_user_Return in Hrun as (u & Hu & Hsel & _ & -> & Hc & ->).
  destruct (decode_pair_access settings now t u Hfresh) as (c & Hdec & Hsub & _).
  assert (Hname : u_username u = l_username user_data).
  { assert (Hin : u ∈ filter (λ r, u_username r = l_username user_data) db)
      by (rewrite Hsel; apply list_elem_of_here).
    by apply list_elem_of_filter in Hin as [? _]. }
  exists (set_last_login u now). split; [|split; [|done]].
  - eapply get_current_user_found; [exact Hdec| |exact Hc|].
    + apply (UUID_of_sub c (u_id u)); [exact Hsub|by apply (Hparse u)].
    + by apply (write_back_elem _ u).
  - by apply (write_back_elem _ u).
Qed.

Lemma sample_db_ids_parse (r : User) :
  r ∈ sample_db → @UUID_parse sample_primitives (@uuid_str sample_primitives (u_id r))
                  = Some (u_id r).
Proof.
  intros Hr. unfold sample_db in Hr.
  repeat (apply elem_of_cons in Hr as [->|Hr]; [reflexivity|]).
  by apply elem_of_nil in Hr.
Qed.

Lemma alice_login_run :
  @login_user sample_primitives cfg 500 alice_login sample_db =
  Return (@issue_pair sample_primitives cfg 500 alice,
          write_back (set_last_login alice 500) sample_db).
Proof. reflexivity. Qed.

Lemma login_then_guard_witness :
  let P := sample_primitives in
  ∃ u', @get_current_user P cfg 2300
          (write_back (set_last_login alice 500) sample_db)
          (t_access_token (@issue_pair P cfg 500 alice)) = Return u' ∧
        u' ∈ write_back (set_last_login alice 500) sample_db ∧
        u_username u' = "alice" ∧ u_last_login u' = Some 500.
Proof.
  intros P.
  apply (@login_then_guard P cfg 500 2300 alice_login sample_db).
  - exact alice_login_run.
  - exact sample_db_ids_parse.
  - simpl. lia.
Defined.

(** X4.  The guard does not look at the kind of the token: after a
    successful login, the refresh token of the pair is accepted as a
    bearer token, and resolves to the same account, for as long as the
    refresh token lives. *)
Theorem guard_accepts_refresh_token `{Primitives} (settings : Settings) (now t : Z)
    (user_data : UserLogin) (db db' : list User) (tok : Token) :
  login_user settings now user_data db = Return (tok, db') →
  (∀ r, r ∈ db → UUID_parse (uuid_str (u_id r)) = Some (u_id r)) →
  t ≤ now + 86400 * REFRESH_TOKEN_EXPIRE_DAYS settings →
  ∃ u', get_current_user settings t db' (t_refresh_token tok) = Return u' ∧
        u' ∈ db' ∧ u_username u' = l_username user_data.
Proof.
  intros Hrun Hparse Hfresh.
  apply login_user_Return in Hrun as (u & Hu & Hsel & _ & -> & Hc & ->).
  destruct (decode_pair_refresh settings now t u Hfresh) as (c & Hdec & Hsub & _).
  assert (Hname : u_username u = l_username user_data).
  { assert (Hin : u ∈ filter (λ r, u_username r = l_username user_data) db)
      by (rewrite Hsel; apply list_elem_of_here).
    by apply list_elem_of_filter in Hin as [? _]. }
  exists (set_last_login u now). split; [|split; [|done]].
  - eapply get_current_user_found; [exact Hdec| |exact Hc|].
    + apply (UUID_of_sub c (u_id u)); [exact Hsub|by apply (Hparse u)].
    + by apply (write_back_elem _ u).
  - by apply (write_back_elem _ u).
Qed.

Lemma guard_accepts_refresh_token_witness :
  let P := sample_primitives in
  ∃ u', @get_current_user P cfg 600000
          (write_back (set_last_login alice 500) sample_db)
          (t_refresh_token (@issue_pair P cfg 500 alice)) = Return u' ∧
        u' ∈ write_back (set_last_login alice 500) sample_db ∧
        u_username u' = "alice".
Proof.
  intros P.
  apply (@guard_accepts_refresh_token P cfg 500 600000 alice_login sample_db).
  - exact alice_login_run.
  - exact sample_db_ids_parse.
  - simpl. lia.
Defined.

(** X5.  The refresh endpoint looks at the kind before anything else: the
    access token of a pair issued by a successful login, presented to it
    while the token lives, is refused with 400 "Invalid refresh token",
    whatever the table holds. *)
Theorem refresh_rejects_access_token `{Primitives} (settings : Settings) (now t : Z)
    (user_data : UserLogin) (db db' any : list User) (tok : Token) :
  login_user settings now user_data db = Return (tok, db') →
  t ≤ now + 60 * ACCESS_TOKEN_EXPIRE_MINUTES settings →
  refresh_token settings t (t_access_token tok) any =
  Raise (HTTPException 400 "Invalid refresh token").
Proof.
  intros Hrun Hfresh.
  apply login_user_Return in Hrun as (u & _ & _ & _ & _ & _ & ->).
  destruct (decode_pair_access settings now t u Hfresh) as (c & Hdec & _ & Hty & _).
  eapply refresh_token_wrong_kind; [exact Hdec|]. by rewrite Hty.
Qed.

Lemma refresh_rejects_access_token_witness :
  @refresh_token sample_primitives cfg 600
    (t_access_token (@issue_pair sample_primitives cfg 500 alice)) [] =
  Raise (HTTPException 400 "Invalid refresh token").
Proof.
  apply (@refresh_rejects_access_token sample_primitives cfg 500 600
           alice_login sample_db
           (write_back (set_last_login alice 500) sample_db) []).
  - exact alice_login_run.
  - simpl. lia.
Defined.

(** X6.  Rotation without revocation.  After a successful login, the
    refresh token of the pair, presented at any instant of its lifetime
    and any number of times, is answered with a fresh pair for the same
    account when the account is active, and with 401 "User not found"
    when it is not; the refresh endpoint writes nothing. *)
Theorem login_then_refresh `{Primitives} (settings : Settings) (now t : Z)
    (user_data : UserLogin) (db db' : list User) (tok : Token) :
  login_user settings now user_data db = Return (tok, db') →
  (∀ r, r ∈ db → UUID_parse (uuid_str (u_id r)) = Some (u_id r)) →
  t ≤ now + 86400 * REFRESH_TOKEN_EXPIRE_DAYS settings →
  ∃ u', u' ∈ db' ∧ u_username u' = l_username user_data ∧
        refresh_token settings t (t_refresh_token tok) db' =
        if u_is_active u' then Return (issue_pair settings t u')
        else Raise (HTTPException 401 "User not found").
Proof.
  intros Hrun Hparse Hfresh.
  apply login_user_Return in Hrun as (u & Hu & Hsel & _ & -> & Hc & ->).
  destruct (decode_pair_refresh settings now t u Hfresh)
    as (c & Hdec & Hsub & Hty & _).
  assert (Hname : u_username u = l_username user_data).
  { assert (Hin : u ∈ filter (λ r, u_username r = l_username user_data) db)
      by (rewrite Hsel; apply list_elem_of_here).
    by apply list_elem_of_filter in Hin as [? _]. }
  assert (Hx : set_last_login u now ∈ write_back (set_last_login u now) db)
    by (by apply (write_back_elem _ u)).
  exists (set_last_login u now). split; [done|]. split; [done|].
  apply (refresh_token_found settings t _ _ c); try done.
  apply (UUID_of_sub c (u_id u)); [exact Hsub|by apply (Hparse u)].
Qed.

Lemma login_then_refresh_witness :
  let P := sample_primitives in
  let db' := write_back (set_last_login alice 500) sample_db in
  ∃ u', u' ∈ db' ∧ u_username u' = "alice" ∧
        @refresh_token P cfg 600000 (t_refresh_token (@issue_pair P cfg 500 alice)) db' =
        if u_is_active u' then Return (@issue_pair P cfg 600000 u')
        else Raise (HTTPException 401 "User not found").
Proof.
  intros P db'.
  apply (@login_then_refresh P cfg 500 600000 alice_login sample_db).
  - exact alice_login_run.
  - exact sample_db_ids_parse.
  - simpl. lia.
Defined.

(** X7.  A login that fails does not say why.  For a username the store
    takes (no NUL character): an unknown username, and a known username
    with a password the hasher tells apart from the stored one, raise the
    same exception, 401 "Incorrect username or password".  The one
    failure that differs is a password of more than 4096 characters for a
    known username: the hasher's size error leaves the handler, and the
    request is answered with status 500. *)
Theorem login_failures_are_alike `{Primitives} (settings : Settings) (now : Z)
    (user_data : UserLogin) (db : list User) :
  storable (l_username user_data) →
  let generic := Raise (HTTPException 401 "Incorrect username or password") in
  let too_long := ValueError "password exceeds maximum allowed size" in
  (l_username user_data ∉ u_username <$> db →
   login_user settings now user_data db = generic) ∧
  (∀ u, constraints db → u ∈ db → u_username u = l_username user_data →
        verify_password (l_password user_data) (u_password_hash u) = Return false →
        login_user settings now user_data db = generic) ∧
  (∀ u rounds salt chk,
        constraints db → u ∈ db → u_username u = l_username user_data →
        u_password_hash u = Mcf pbkdf2_sha256 rounds salt chk →
        ((py_len (l_password user_data) ≤ 4096)%nat →
         digest pbkdf2_sha256 rounds salt (l_password user_data) ≠ chk →
         login_user settings now user_data db = generic) ∧
        ((4096 < py_len (l_password user_data))%nat →
         login_user settings now user_data db = Raise too_long ∧
         response_status too_long = 500)).
Proof.
  intros _ generic too_long. subst generic too_long. unfold login_user.
  split; [|split].
  - intros Hnin. by rewrite (filter_col_miss u_username).
  - intros u (_ & _ & Hnames) Hu Hname Hpw. rewrite <- Hname.
    rewrite (filter_col_unique u_username) by done. simpl. by rewrite Hpw.
  - intros u rounds salt chk (_ & _ & Hnames) Hu Hname Hh. rewrite <- Hname.
    rewrite (filter_col_unique u_username) by done. simpl. rewrite Hh. split.
    + intros Hlen Hne. rewrite verify_password_pbkdf2 by done.
      by rewrite bool_decide_eq_false_2.
    + intros Hlen. by rewrite verify_password_pbkdf2_long.
Qed.

Lemma login_failures_are_alike_witness :
  let P := sample_primitives in
  @login_user P cfg 500 {| l_username := "mallory"; l_password := "x" |} sample_db =
    Raise (HTTPException 401 "Incorrect username or password") ∧
  @login_user P cfg 500 {| l_username := "alice"; l_password := "x" |} sample_db =
    Raise (HTTPException 401 "Incorrect username or password").
Proof.
  intros P.
  destruct (@login_failures_are_alike P cfg 500
              {| l_username := "mallory"; l_password := "x" |} sample_db)
    as [Hunknown _]; [compute_done|].
  destruct (@login_failures_are_alike P cfg 500
              {| l_username := "alice"; l_password := "x" |} sample_db)
    as (_ & Hwrong & _); [compute_done|].
  split.
  - apply Hunknown. compute_done.
  - apply (Hwrong alice); [compute_done|compute_done|reflexivity|reflexivity].
Defined.

(** * Further properties of the account directory *)

Lemma NoDup_snoc_col {K} (col : User → K) (db : list User) (u : User) :
  NoDup (col <$> db) → (col u ∉ col <$> db) → NoDup (col <$> (db ++ [u])%list).
Proof.
  intros Hnd Hnin. rewrite fmap_app. apply NoDup_app. split; [done|]. split.
  - intros k Hk Hk'. apply list_elem_of_singleton in Hk'. by subst.
  - apply NoDup_singleton.
Qed.

Lemma constraints_snoc (db : list User) (u : User) :
  constraints db →
  (u_id u ∉ u_id <$> db) → (u_email u ∉ u_email <$> db) →
  (u_username u ∉ u_username <$> db) →
  constraints (db ++ [u])%list.
Proof.
  intros (Hid & Hemail & Hname) Hi He Hn.
  repeat split; by apply NoDup_snoc_col.
Qed.

Lemma NoDup_filter_col {K} (col : User → K) (P : User → Prop)
    `{∀ r, Decision (P r)} (db : list User) :
  NoDup (col <$> db) → NoDup (col <$> filter P db).
Proof.
  intros Hnd. apply (sublist_NoDup _ _ Hnd).
  apply fmap_sublist, sublist_filter.
Qed.

Lemma constraints_filter (P : User → Prop) `{∀ r, Decision (P r)} (db : list User) :
  constraints db → constraints (filter P db).
Proof. intros (Hid & Hemail & Hname). repeat split; by apply NoDup_filter_col. Qed.

Section registration.
Context `{Primitives}.

Lemma create_user_fresh (now : Z) (new_id : uuid) (salt : string)
    (user_data : UserCreate) (db : list User) :
  constraints db →
  (new_id ∉ u_id <$> db) →
  (c_email user_data ∉ u_email <$> db) →
  (c_username user_data ∉ u_username <$> db) →
  (py_len (c_password user_data) ≤ 4096)%nat →
  let u := {| u_id := new_id;
              u_email := c_email user_data;
              u_username := c_username user_data;
              u_full_name := c_full_name user_data;
              u_is_active := true;
              u_password_hash :=
                Mcf pbkdf2_sha256 310000 salt
                  (digest pbkdf2_sha256 310000 salt (c_password user_data));
              u_created_at := now;
              u_updated_at := now;
              u_last_login := None |} in
  create_user now new_id salt user_data db = Return (to_user_response u, (db ++ [u])%list).
Proof.
  intros Hc Hid Hemail Hname Hlen u. unfold create_user.
  rewrite filter_none.
  2:{ intros r Hr [He|Hn].
      - apply Hemail. rewrite <- He. by apply list_elem_of_fmap_2.
      - apply Hname. rewrite <- Hn. by apply list_elem_of_fmap_2. }
  simpl. rewrite (get_password_hash_default _ _ Hlen). simpl.
  unfold commit. rewrite bool_decide_eq_true_2; [done|].
  by apply constraints_snoc.
Qed.

Lemma create_user_long_password (now : Z) (new_id : uuid) (salt : string)
    (user_data : UserCreate) (db : list User) :
  (c_email user_data ∉ u_email <$> db) →
  (c_username user_data ∉ u_username <$> db) →
  (4096 < py_len (c_password user_data))%nat →
  create_user now new_id salt user_data db =
  Raise (ValueError "password exceeds maximum allowed size").
Proof.
  intros Hemail Hname Hlen. unfold create_user.
  rewrite filter_none.
  2:{ intros r Hr [He|Hn].
      - apply Hemail. rewrite <- He. by apply list_elem_of_fmap_2.
      - apply Hname. rewrite <- Hn. by apply list_elem_of_fmap_2. }
  simpl. by rewrite (get_password_hash_long _ _ Hlen).
Qed.
End registration.

(** X8.  Registration on a table that satisfies its constraints, with a
    drawn identifier, an email and a username that are not in it, and with
    text the store takes (no NUL character in email, username or full
    name).  With a password of at most 4096 characters it succeeds: the
    row is appended, both timestamps are the clock reading, last-login is
    unset, the hash is a [pbkdf2_sha256] hash of the password, and the row
    is active whatever [is_active] the request carried.  With a longer
    password the hasher's size error leaves the handler, nothing is
    written, and the request is answered with status 500. *)
Theorem register_succeeds `{Primitives} (now : Z) (new_id : uuid) (salt : string)
    (user_data : UserCreate) (db : list User) :
  constraints db →
  (new_id ∉ u_id <$> db) →
  (c_email user_data ∉ u_email <$> db) →
  (c_username user_data ∉ u_username <$> db) →
  storable (c_email user_data) → storable (c_username user_data) →
  storable_opt (c_full_name user_data) →
  ((py_len (c_password user_data) ≤ 4096)%nat →
   ∃ u, create_user now new_id salt user_data db
          = Return (to_user_response u, (db ++ [u])%list) ∧
        u_id u = new_id ∧ u_email u = c_email user_data ∧
        u_username u = c_username user_data ∧
        u_full_name u = c_full_name user_data ∧
        u_is_active u = true ∧
        u_created_at u = now ∧ u_updated_at u = now ∧ u_last_login u = None ∧
        ctx_identify pwd_context (u_password_hash u) = Some pbkdf2_sha256) ∧
  ((4096 < py_len (c_password user_data))%nat →
   let too_long := ValueError "password exceeds maximum allowed size" in
   create_user now new_id salt user_data db = Raise too_long ∧
   response_status too_long = 500).
Proof.
  intros Hc Hid Hemail Hname _ _ _. split.
  - intros Hlen. eexists. split; [by apply create_user_fresh|done].
  - intros Hlen too_long. split; [by apply create_user_long_password|done].
Qed.

Lemma register_succeeds_witness :
  let P := sample_primitives in
  let user_data := {| c_email := "d@x.com"; c_username := "dave";
                      c_full_name := Some "Dave"; c_is_active := false;
                      c_password := "pw12345" |} in
  ∃ u, @create_user P 400 4%N "s" user_data sample_db
         = Return (@to_user_response P u, (sample_db ++ [u])%list) ∧
       u_is_active u = true ∧ u_created_at u = 400 ∧ u_updated_at u = 400.
Proof.
  intros P user_data.
  destruct (@register_succeeds P 400 4%N "s" user_data sample_db)
    as [Hshort _]; [compute_done..|].
  destruct Hshort as (u & Hrun & _ & _ & _ & _ & Hact & Hc & Hu & _);
    [simpl; lia|].
  exists u. done.
Defined.

(** X9.  Register, then log in.  After a successful registration, a login
    with the registered username and password succeeds on the new table,
    at any later clock reading: it issues the pair for the registered
    identifier and sets the last-login of that row. *)
Theorem register_then_login `{Primitives} (settings : Settings) (now now' : Z)
    (new_id : uuid) (salt : string) (user_data : UserCreate)
    (db db1 : list User) (resp : UserResponse) :
  create_user now new_id salt user_data db = Return (resp, db1) →
  ∃ u tok db2,
    login_user settings now'
      {| l_username := c_username user_data; l_password := c_password user_data |} db1
      = Return (tok, db2) ∧
    u ∈ db1 ∧ u_id u = new_id ∧
    tok = issue_pair settings now' u ∧
    set_last_login u now' ∈ db2.
Proof.
  intros Hrun.
  apply create_user_Return in Hrun
    as (u & -> & Hc & _ & Hid & _ & Hname & _ & _ & _ & _ & Hhash).
  assert (Hin : u ∈ (db ++ [u])%list)
    by (apply elem_of_app; right; apply list_elem_of_here).
  exists u, (issue_pair settings now' u),
    (write_back (set_last_login u now') (db ++ [u])%list).
  split; [|split; [done|split; [done|split; [done|]]]].
  - apply login_user_ignores_active_flag; try done.
    apply get_password_hash_Return in Hhash as [Hlen ->].
    simpl. rewrite verify_password_pbkdf2 by done.
    by rewrite bool_decide_eq_true_2.
  - by apply (write_back_elem _ u).
Qed.

Lemma register_then_login_witness :
  let P := sample_primitives in
  let dave := sample_user 4 "d@x.com" "dave" true 400 in
  ∃ u tok db2,
    @login_user P cfg 900 {| l_username := "dave"; l_password := "dave-pw" |}
      (sample_db ++ [dave])%list = Return (tok, db2) ∧
    u_id u = 4%N ∧ set_last_login u 900 ∈ db2.
Proof.
  intros P dave.
  destruct (@register_then_login P cfg 400 900 4%N "s"
              {| c_email := "d@x.com"; c_username := "dave"; c_full_name := None;
                 c_is_active := true; c_password := "dave-pw" |}
              sample_db (sample_db ++ [dave])%list (@to_user_response P dave))
    as (u & tok & db2 & Hlogin & _ & Hid & _ & Hin); [reflexivity|].
  exists u, tok, db2. done.
Defined.

Section lookups.
Context `{Primitives}.

Lemma get_user_found (user_id : string) (db : list User) (u : User) :
  constraints db → u ∈ db → UUID_parse user_id = Some (u_id u) →
  get_user user_id db = Return (to_user_response u).
Proof.
  intros (Hid & _) Hu Hp. unfold get_user.
  rewrite (proj2 (path_id_Return _ _) Hp). simpl.
  by rewrite select_by_id_unique.
Qed.

Lemma path_id_invalid (user_id : string) :
  UUID_parse user_id = None →
  path_id user_id = Raise (HTTPException 400 "Invalid user ID format").
Proof. intros Hp. unfold path_id, UUID, try_except. by rewrite Hp. Qed.

Lemma select_by_id_miss (uid : uuid) (db : list User) :
  uid ∉ u_id <$> db → select_by_id uid db = [].
Proof. apply (filter_col_miss u_id). Qed.

Lemma delete_user_found (user_id : string) (db : list User) (u : User) :
  constraints db → u ∈ db → UUID_parse user_id = Some (u_id u) →
  delete_user user_id db =
  Return ("User deleted successfully", filter (λ r, u_id r ≠ u_id u) db).
Proof.
  intros Hc Hu Hp. pose proof Hc as (Hid & _). unfold delete_user.
  rewrite (proj2 (path_id_Return _ _) Hp). simpl.
  rewrite select_by_id_unique by done. simpl.
  unfold commit. rewrite bool_decide_eq_true_2; [done|].
  by apply constraints_filter.
Qed.

Lemma deleted_id_gone (u : User) (db : list User) :
  u_id u ∉ u_id <$> filter (λ r, u_id r ≠ u_id u) db.
Proof.
  intros Hin. apply list_elem_of_fmap in Hin as (r & Heq & Hr).
  apply list_elem_of_filter in Hr as [Hne _]. congruence.
Qed.
End lookups.

(** X10.  Registration with an email and a username the store takes (no
    NUL character) answers 409 "User already exists" when one row of the
    table carries the email and no other row carries the username, and
    when one row carries the username and no other row carries the email
    (the one row may carry both). *)
Theorem register_conflict_is_409 `{Primitives} (now : Z) (new_id : uuid)
    (salt : string) (user_data : UserCreate) (db : list User) (v : User) :
  constraints db → v ∈ db →
  storable (c_email user_data) → storable (c_username user_data) →
  (u_email v = c_email user_data ∧
   ∀ w, w ∈ db → u_username w = c_username user_data → w = v) ∨
  (u_username v = c_username user_data ∧
   ∀ w, w ∈ db → u_email w = c_email user_data → w = v) →
  create_user now new_id salt user_data db =
  Raise (HTTPException 409 "User already exists").
Proof.
  intros Hc Hv _ _ Hcase. pose proof Hc as (_ & Hemails & Hnames).
  apply (create_user_conflict now new_id salt user_data db v); try done.
  - destruct Hcase as [[He _]|[Hn _]]; auto.
  - intros w Hw [He|Hn]; destruct Hcase as [[Hve Honly]|[Hvn Honly]]; auto.
    + apply (NoDup_col_inj u_email db); congruence.
    + apply (NoDup_col_inj u_username db); congruence.
Qed.

Lemma register_conflict_is_409_witness :
  @create_user sample_primitives 400 4%N "s"
    {| c_email := "a@x.com"; c_username := "zoe"; c_full_name := None;
       c_is_active := true; c_password := "pw" |} sample_db =
  Raise (HTTPException 409 "User already exists").
Proof.
  apply (@register_conflict_is_409 sample_primitives 400 4%N "s" _ sample_db alice).
  - compute_done.
  - compute_done.
  - compute_done.
  - compute_done.
  - left. split; [reflexivity|]. intros w Hw Hname. exfalso.
    unfold sample_db in Hw.
    repeat (apply elem_of_cons in Hw as [->|Hw]; [discriminate Hname|]).
    by apply elem_of_nil in Hw.
Defined.

(** X11.  An identifier that does not parse is answered 400 "Invalid user
    ID format" by [get_user], [update_user] and [delete_user] alike, and a
    well-formed identifier that no row has is answered 404 "User not
    found" by all three; none of them touches the table then. *)
Theorem malformed_and_unknown_ids `{Primitives} (now : Z) (user_id : string)
    (update_data : UserUpdate) (db : list User) :
  (UUID_parse user_id = None →
   let bad := HTTPException 400 "Invalid user ID format" in
   get_user user_id db = Raise bad ∧
   update_user now user_id update_data db = Raise bad ∧
   delete_user user_id db = Raise bad) ∧
  (∀ uid, UUID_parse user_id = Some uid → uid ∉ u_id <$> db →
   let missing := HTTPException 404 "User not found" in
   get_user user_id db = Raise missing ∧
   update_user now user_id update_data db = Raise missing ∧
   delete_user user_id db = Raise missing).
Proof.
  split.
  - intros Hp bad. unfold get_user, update_user, delete_user.
    by rewrite (path_id_invalid _ Hp).
  - intros uid Hp Hnin missing. unfold get_user, update_user, delete_user.
    rewrite (proj2 (path_id_Return _ _) Hp). simpl.
    by rewrite (select_by_id_miss _ _ Hnin).
Qed.

Lemma malformed_and_unknown_ids_witness :
  let P := sample_primitives in
  @get_user P "not-an-id" sample_db = Raise (HTTPException 400 "Invalid user ID format") ∧
  @delete_user P (canonical_str 9%N) sample_db
    = Raise (HTTPException 404 "User not found").
Proof.
  intros P.
  destruct (@malformed_and_unknown_ids P 0 "not-an-id"
              {| p_email := None; p_username := None; p_full_name := None;
                 p_is_active := None |} sample_db) as [Hbad _].
  destruct (@malformed_and_unknown_ids P 0 (canonical_str 9%N)
              {| p_email := None; p_username := None; p_full_name := None;
                 p_is_active := None |} sample_db) as [_ Hmiss].
  split.
  - by destruct (Hbad eq_refl) as (? & _).
  - destruct (Hmiss 9%N) as (_ & _ & Hdel); [reflexivity|compute_done|exact Hdel].
Defined.

(** X12.  Register, then read back.  After a successful registration, for
    an identifier that prints and parses back, [get_user] on the printed
    identifier of the response returns that very response. *)
Theorem register_then_get `{Primitives} (now : Z) (new_id : uuid) (salt : string)
    (user_data : UserCreate) (db db1 : list User) (resp : UserResponse) :
  create_user now new_id salt user_data db = Return (resp, db1) →
  UUID_parse (uuid_str new_id) = Some new_id →
  get_user (r_id resp) db1 = Return resp.
Proof.
  intros Hrun Hp.
  apply create_user_Return in Hrun as (u & -> & Hc & -> & Hid & _).
  apply get_user_found; [done| |].
  - apply elem_of_app. right. apply list_elem_of_here.
  - simpl. by rewrite Hid.
Qed.

Lemma register_then_get_witness :
  let P := sample_primitives in
  let dave := sample_user 4 "d@x.com" "dave" true 400 in
  @get_user P (canonical_str 4%N) (sample_db ++ [dave])%list
    = Return (@to_user_response P dave).
Proof.
  intros P dave.
  apply (@register_then_get P 400 4%N "s"
           {| c_email := "d@x.com"; c_username := "dave"; c_full_name := None;
              c_is_active := true; c_password := "dave-pw" |}
           sample_db (sample_db ++ [dave])%list (@to_user_response P dave));
    reflexivity.
Defined.

(** X13.  Deletion is a hard removal.  On a table satisfying its
    constraints, deleting an existing account succeeds and leaves exactly
    the other rows; afterwards the identifier is unknown: [get_user] and a
    second [delete_user] on it answer 404. *)
Theorem delete_user_removes `{Primitives} (user_id : string) (db : list User)
    (u : User) :
  constraints db → u ∈ db → UUID_parse user_id = Some (u_id u) →
  ∃ db', delete_user user_id db = Return ("User deleted successfully", db') ∧
         (∀ r, r ∈ db' ↔ r ∈ db ∧ r ≠ u) ∧
         constraints db' ∧
         get_user user_id db' = Raise (HTTPException 404 "User not found") ∧
         delete_user user_id db' = Raise (HTTPException 404 "User not found").
Proof.
  intros Hc Hu Hp. pose proof Hc as (Hid & _).
  exists (filter (λ r, u_id r ≠ u_id u) db).
  split; [by apply delete_user_found|]. split; [|split; [by apply constraints_filter|]].
  - intros r. rewrite list_elem_of_filter. split.
    + intros [Hne Hr]. split; [done|]. by intros ->.
    + intros [Hr Hne]. split; [|done]. intros Heq. apply Hne.
      by apply (NoDup_col_inj u_id db).
  - unfold get_user, delete_user.
    rewrite (proj2 (path_id_Return _ _) Hp). simpl.
    by rewrite (select_by_id_miss _ _ (deleted_id_gone u db)).
Qed.

Lemma delete_user_removes_witness :
  ∃ db', @delete_user sample_primitives (canonical_str 2%N) sample_db
           = Return ("User deleted successfully", db') ∧
         (∀ r, r ∈ db' ↔ r ∈ sample_db ∧ r ≠ bob) ∧
         @get_user sample_primitives (canonical_str 2%N) db'
           = Raise (HTTPException 404 "User not found").
Proof.
  destruct (@delete_user_removes sample_primitives (canonical_str 2%N) sample_db bob)
    as (db' & Hdel & Hrows & _ & Hget & _); [compute_done|compute_done|reflexivity|].
  exists db'. done.
Defined.

(** X14.  No tombstone is kept: after an account is deleted, its email and
    its username can be registered again under a new identifier, with any
    password of at most 4096 characters and any full name the store takes
    (the email and the username are text the store has taken before). *)
Theorem delete_frees_email_and_username `{Primitives} (now : Z) (user_id : string)
    (new_id : uuid) (salt : string) (user_data : UserCreate) (db : list User)
    (u : User) :
  constraints db → u ∈ db → UUID_parse user_id = Some (u_id u) →
  (new_id ∉ u_id <$> db) →
  c_email user_data = u_email u → c_username user_data = u_username u →
  storable (u_email u) → storable (u_username u) →
  storable_opt (c_full_name user_data) →
  (py_len (c_password user_data) ≤ 4096)%nat →
  ∃ db' resp db'',
    delete_user user_id db = Return ("User deleted successfully", db') ∧
    create_user now new_id salt user_data db' = Return (resp, db'') ∧
    r_email resp = u_email u ∧ r_username resp = u_username u ∧
    r_id resp = uuid_str new_id.
Proof.
  intros Hc Hu Hp Hnew Hemail Hname _ _ _ Hlen.
  pose proof Hc as (Hid & Hemails & Hnames).
  eexists _, _, _. split; [by apply delete_user_found|]. split.
  - apply create_user_fresh; [| | | |exact Hlen].
    + by apply constraints_filter.
    + intros Hin. apply Hnew. apply list_elem_of_fmap in Hin as (r & -> & Hr).
      apply list_elem_of_filter in Hr as [_ Hr]. by apply list_elem_of_fmap_2.
    + intros Hin. apply list_elem_of_fmap in Hin as (r & Heq & Hr).
      apply list_elem_of_filter in Hr as [Hne Hr]. apply Hne.
      f_equal. apply (NoDup_col_inj u_email db); congruence.
    + intros Hin. apply list_elem_of_fmap in Hin as (r & Heq & Hr).
      apply list_elem_of_filter in Hr as [Hne Hr]. apply Hne.
      f_equal. apply (NoDup_col_inj u_username db); congruence.
  - simpl. by rewrite Hemail, Hname.
Qed.

Lemma delete_frees_email_and_username_witness :
  ∃ db' resp db'',
    @delete_user sample_primitives (canonical_str 2%N) sample_db
      = Return ("User deleted successfully", db') ∧
    @create_user sample_primitives 900 7%N "s"
      {| c_email := "b@x.com"; c_username := "bob"; c_full_name := None;
         c_is_active := true; c_password := "new-pw" |} db' = Return (resp, db'') ∧
    r_email resp = "b@x.com".
Proof.
  destruct (@delete_frees_email_and_username sample_primitives 900
              (canonical_str 2%N) 7%N "s"
              {| c_email := "b@x.com"; c_username := "bob"; c_full_name := None;
                 c_is_active := true; c_password := "new-pw" |} sample_db bob)
    as (db' & resp & db'' & Hdel & Hreg & Hemail & _);
    [compute_done|compute_done|reflexivity|compute_done|reflexivity|reflexivity
    |compute_done|compute_done|compute_done|simpl; lia|].
  exists db', resp, db''. done.
Defined.

(** * Further properties of Update *)

Lemma NoDup_write_back_col {K} (col : User → K) (x u : User) (db : list User) :
  NoDup (u_id <$> db) → NoDup (col <$> db) → u ∈ db → u_id x = u_id u →
  (∀ r, r ∈ db → col r = col x → r = u) →
  NoDup (col <$> write_back x db).
Proof.
  intros Hid Hcol Hu Hx Honly. unfold write_back. rewrite <- list_fmap_compose.
  apply NoDup_fmap_2_strong; [|by apply NoDup_fmap_1 in Hid].
  intros a b Ha Hb. simpl. repeat case_bool_decide; intros Heq.
  - apply (NoDup_col_inj u_id db); congruence.
  - exfalso. assert (b = u) by (apply Honly; [done|congruence]). congruence.
  - exfalso. assert (a = u) by (apply Honly; [done|congruence]). congruence.
  - by apply (NoDup_col_inj col db).
Qed.

Lemma constraints_write_back (x u : User) (db : list User) :
  constraints db → u ∈ db → u_id x = u_id u →
  (∀ r, r ∈ db → u_email r = u_email x → r = u) →
  (∀ r, r ∈ db → u_username r = u_username x → r = u) →
  constraints (write_back x db).
Proof.
  intros (Hid & Hemails & Hnames) Hu Hx He Hn. repeat split.
  - by rewrite write_back_ids.
  - by apply (NoDup_write_back_col u_email x u).
  - by apply (NoDup_write_back_col u_username x u).
Qed.

(** X15.  Update changes the supplied fields and nothing else.  On a table
    satisfying its constraints, for an existing account, with no field set
    to null, supplied text the store takes (no NUL character in email,
    username or full name), a new email that no other row has and a new
    username that no other row has, [update_user] succeeds (an empty update and an update
    to the account's own current values included): the row keeps its
    identifier, creation time, hash and last-login, takes the supplied
    fields, gets the clock reading as updated-at, and replaces the old row
    in the table. *)
Theorem update_user_succeeds `{Primitives} (now : Z) (user_id : string)
    (update_data : UserUpdate) (db : list User) (u : User) :
  constraints db → u ∈ db → UUID_parse user_id = Some (u_id u) →
  p_email update_data ≠ Some None → p_username update_data ≠ Some None →
  p_is_active update_data ≠ Some None →
  storable_opt (mjoin (p_email update_data)) →
  storable_opt (mjoin (p_username update_data)) →
  storable_opt (mjoin (p_full_name update_data)) →
  (∀ e r, p_email update_data = Some (Some e) → r ∈ db → u_email r = e → r = u) →
  (∀ n r, p_username update_data = Some (Some n) → r ∈ db → u_username r = n → r = u) →
  ∃ u', update_user now user_id update_data db
          = Return (to_user_response u', write_back u' db) ∧
        u_id u' = u_id u ∧
        u_email u' = default (u_email u) (mjoin (p_email update_data)) ∧
        u_username u' = default (u_username u) (mjoin (p_username update_data)) ∧
        u_full_name u' = default (u_full_name u) (p_full_name update_data) ∧
        u_is_active u' = default (u_is_active u) (mjoin (p_is_active update_data)) ∧
        u_updated_at u' = now ∧ u_created_at u' = u_created_at u ∧
        u_password_hash u' = u_password_hash u ∧ u_last_login u' = u_last_login u.
Proof.
  intros Hc Hu Hp Hne Hnn Hna _ _ _ Hemail Hname.
  pose proof Hc as (Hid & Hemails & Hnames).
  assert (Hown_e : ∀ r, r ∈ db → u_email r = u_email u → r = u)
    by (intros r Hr Heq; by apply (NoDup_col_inj u_email db)).
  assert (Hown_n : ∀ r, r ∈ db → u_username r = u_username u → r = u)
    by (intros r Hr Heq; by apply (NoDup_col_inj u_username db)).
  destruct update_data as [pe pn pf pa]. simpl in *.
  unfold update_user. rewrite (proj2 (path_id_Return _ _) Hp). simpl.
  rewrite select_by_id_unique by done. simpl.
  destruct pe as [[e|]|], pn as [[n|]|], pa as [[a|]|]; try done; simpl.
  all: try (rewrite bool_decide_eq_true_2 by (by (left + right); eexists)).
  all: try (rewrite bool_decide_eq_false_2 by (by intros [[? [=]]|[? [=]]])).
  all: try match goal with
       | |- context [scalar_one_or_none ?l] =>
           let Hq := fresh "Hq" in
           assert (Hq : l = []);
           [ apply elem_of_nil_inv; intros w Hw; unfold where_eq in Hw;
             rewrite !list_elem_of_filter in Hw; destruct_and!; simplify_eq;
             match goal with
             | Hne : u_id ?w ≠ _ |- _ =>
                 apply Hne; f_equal; first [by eapply Hemail | by eapply Hname]
             end
           | rewrite Hq ]
       end.
  all: simpl; unfold commit.
  all: rewrite bool_decide_eq_true_2;
    [ | apply (constraints_write_back _ u); simpl; eauto ].
  all: simpl; eexists; split; [reflexivity|done].
Qed.

Lemma update_user_succeeds_witness :
  let P := sample_primitives in
  let update_data := {| p_email := Some (Some "a@x.com");
                        p_username := Some (Some "alice2");
                        p_full_name := Some (Some "Alice");
                        p_is_active := None |} in
  ∃ u', @update_user P 700 (canonical_str 1%N) update_data sample_db
          = Return (@to_user_response P u', write_back u' sample_db) ∧
        u_email u' = "a@x.com" ∧ u_username u' = "alice2" ∧
        u_full_name u' = Some "Alice" ∧ u_is_active u' = true ∧
        u_updated_at u' = 700 ∧ u_created_at u' = 100.
Proof.
  intros P update_data.
  destruct (@update_user_succeeds P 700 (canonical_str 1%N) update_data sample_db alice)
    as (u' & Hrun & _ & He & Hn & Hf & Ha & Hup & Hcr & _).
  - compute_done.
  - compute_done.
  - reflexivity.
  - discriminate.
  - discriminate.
  - discriminate.
  - compute_done.
  - compute_done.
  - compute_done.
  - intros e r [= <-] Hr Heq. unfold sample_db in Hr.
    repeat (apply elem_of_cons in Hr as [->|Hr];
            [first [reflexivity | discriminate Heq]|]).
    by apply elem_of_nil in Hr.
  - intros n r [= <-] Hr Heq. unfold sample_db in Hr.
    repeat (apply elem_of_cons in Hr as [->|Hr];
            [first [reflexivity | discriminate Heq]|]).
    by apply elem_of_nil in Hr.
  - exists u'. done.
Defined.

Section update_conflict.
Context `{Primitives}.

Lemma update_user_same_row_conflict (now : Z) (user_id : string)
    (update_data : UserUpdate) (db : list User) (a b : User) :
  constraints db → a ∈ db → b ∈ db → u_id b ≠ u_id a →
  UUID_parse user_id = Some (u_id a) →
  p_email update_data = Some (Some (u_email b)) →
  p_username update_data = Some (Some (u_username b)) →
  update_user now user_id update_data db =
  Raise (HTTPException 409 "Email or username already exists").
Proof.
  intros Hc Ha Hb Hne Hp Hemail Hname. pose proof Hc as (Hid & Hemails & _).
  unfold update_user. rewrite (proj2 (path_id_Return _ _) Hp). simpl.
  rewrite select_by_id_unique by done. simpl.
  rewrite Hemail, Hname. rewrite bool_decide_eq_true_2 by (left; eauto).
  unfold where_eq.
  rewrite (filter_only (λ r, Some (u_email r) = Some (u_email b)) _ b); try done.
  - by rewrite filter_cons_True.
  - apply NoDup_filter. by apply constraints_NoDup.
  - by apply list_elem_of_filter.
  - intros w Hw [= Hw']. apply list_elem_of_filter in Hw as [_ Hw].
    by apply (NoDup_col_inj u_email db).
Qed.
End update_conflict.

(** X16.  Update answers 409 "Email or username already exists", and
    writes nothing, when the new email alone is supplied and another row
    has it, when the new username alone is supplied and another row has
    it, and when both are supplied and one other row has both. *)
Theorem update_conflict_is_409 `{Primitives} (now : Z) (user_id : string)
    (update_data : UserUpdate) (db : list User) (a b : User) :
  constraints db → a ∈ db → b ∈ db → u_id b ≠ u_id a →
  UUID_parse user_id = Some (u_id a) →
  (p_email update_data = Some (Some (u_email b)) ∧ p_username update_data = None) ∨
  (p_email update_data = None ∧ p_username update_data = Some (Some (u_username b))) ∨
  (p_email update_data = Some (Some (u_email b)) ∧
   p_username update_data = Some (Some (u_username b))) →
  update_user now user_id update_data db =
  Raise (HTTPException 409 "Email or username already exists").
Proof.
  intros Hc Ha Hb Hne Hp [[He Hn]|[[He Hn]|[He Hn]]].
  - by apply (update_user_email_conflict now user_id update_data db a b).
  - by apply (update_user_username_conflict now user_id update_data db a b).
  - by apply (update_user_same_row_conflict now user_id update_data db a b).
Qed.

Lemma update_conflict_is_409_witness :
  @update_user sample_primitives 700 (canonical_str 1%N)
    {| p_email := Some (Some "b@x.com"); p_username := None;
       p_full_name := None; p_is_active := None |} sample_db =
  Raise (HTTPException 409 "Email or username already exists").
Proof.
  apply (@update_conflict_is_409 sample_primitives 700 (canonical_str 1%N) _
           sample_db alice bob);
    [compute_done|compute_done|compute_done|discriminate|reflexivity|].
  left. split; reflexivity.
Defined.

(** * Further properties of the statistics and of listing *)

Lemma length_filter_bool (db : list User) :
  (length (filter (λ r, u_is_active r = true) db) +
   length (filter (λ r, u_is_active r = false) db) = length db)%nat.
Proof.
  induction db as [|r db IH]; [done|].
  destruct (u_is_active r) eqn:Hr.
  - rewrite (filter_cons_True (λ r, u_is_active r = true)) by done.
    rewrite (filter_cons_False (λ r, u_is_active r = false)) by congruence.
    simpl. lia.
  - rewrite (filter_cons_False (λ r, u_is_active r = true)) by congruence.
    rewrite (filter_cons_True (λ r, u_is_active r = false)) by done.
    simpl. lia.
Qed.

(** X17.  The three counts of [get_user_stats] are consistent: the total
    is the number of rows, the active count is the number of active rows,
    the inactive count is the number of inactive rows, none is negative
    and active plus inactive is the total. *)
Theorem stats_are_consistent (db : list User) :
  let st := get_user_stats db in
  s_total_users st = Z.of_nat (length db) ∧
  s_active_users st = Z.of_nat (length (filter (λ r, u_is_active r = true) db)) ∧
  s_inactive_users st = Z.of_nat (length (filter (λ r, u_is_active r = false) db)) ∧
  0 ≤ s_active_users st ∧ 0 ≤ s_inactive_users st ∧
  s_active_users st + s_inactive_users st = s_total_users st.
Proof.
  intros st. subst st. unfold get_user_stats. simpl.
  pose proof (length_filter_bool db). repeat split; lia.
Qed.

Section listing_pages.
Context `{Primitives}.

Lemma Query_Return (default : Z) (ge le given : option Z) (v : Z) :
  Query default ge le given = Return v →
  v = from_option id default given ∧
  (∀ lo, ge = Some lo → lo ≤ v) ∧ (∀ hi, le = Some hi → v ≤ hi).
Proof.
  unfold Query. destruct given as [g|]; simpl;
    destruct ge as [lo|], le as [hi|]; simpl;
    repeat match goal with
           | |- context [?a <=? ?b] => destruct (Z.leb_spec a b); simpl
           end;
    intros [= <-]; repeat split; intros ? [= <-]; lia.
Qed.

Lemma list_users_Return (is_active : option bool) (skip limit : option Z)
    (db : list User) (page : UserListResponse) :
  list_users is_active skip limit db = Return page →
  let sk := default 0 skip in
  let lim := default 50 limit in
  0 ≤ sk ≤ MAX_OFFSET ∧ 1 ≤ lim ≤ 100 ∧
  lr_total page = Z.of_nat (length (where_is_active is_active db)) ∧
  lr_users page =
    to_user_response <$>
      take (Z.to_nat lim)
        (drop (Z.to_nat sk) (order_by_created_at_desc (where_is_active is_active db))).
Proof.
  unfold list_users. intros Hrun.
  apply bind_Return in Hrun as (sk' & Hsk & Hrun).
  apply bind_Return in Hrun as (lim' & Hlim & Hrun).
  apply Query_Return in Hsk as (-> & Hsk & _).
  apply Query_Return in Hlim as (-> & Hl1 & Hl2).
  simpl in Hrun.
  destruct (Z.ltb_spec MAX_OFFSET (from_option id 0 skip)) as [|Hoff];
    [discriminate|].
  injection Hrun as <-. simpl.
  specialize (Hsk 0 eq_refl). specialize (Hl1 1 eq_refl). specialize (Hl2 100 eq_refl).
  by destruct skip, limit.
Qed.

(** Rows with distinct creation times have one descending order. *)
Lemma descending_order_unique (l1 l2 : list User) :
  NoDup (u_created_at <$> l1) → l1 ≡ₚ l2 →
  StronglySorted created_desc l1 → StronglySorted created_desc l2 → l1 = l2.
Proof.
  revert l2. induction l1 as [|a l1 IH]; intros l2 Hnd Hperm Hs1 Hs2.
  - by apply Permutation_nil in Hperm.
  - destruct l2 as [|b l2]; [by apply Permutation_sym, Permutation_nil_cons in Hperm|].
    apply StronglySorted_inv in Hs1 as [Hs1 Ha].
    apply StronglySorted_inv in Hs2 as [Hs2 Hb].
    assert (a = b) as <-.
    { destruct (decide (a = b)) as [|Hne]; [done|].
      assert (Hain : a ∈ b :: l2) by (rewrite <- Hperm; apply list_elem_of_here).
      assert (Hbin : b ∈ a :: l1) by (rewrite Hperm; apply list_elem_of_here).
      apply elem_of_cons in Hain as [|Hain]; [done|].
      apply elem_of_cons in Hbin as [|Hbin]; [done|].
      rewrite Forall_forall in Ha, Hb.
      pose proof (Ha b Hbin) as Hab. pose proof (Hb a Hain) as Hba.
      unfold created_desc in Hab, Hba.
      apply (NoDup_col_inj u_created_at (a :: l1)); try done.
      - apply list_elem_of_here.
      - by apply list_elem_of_further.
      - lia. }
    f_equal. apply IH; try done.
    + rewrite fmap_cons in Hnd. by apply NoDup_cons in Hnd as [_ Hnd].
    + by apply (Permutation_cons_inv Hperm).
Qed.
End listing_pages.

(** X18.  The statistics agree with listing: the total reported by
    [list_users] without a filter, with the filter [true] and with the
    filter [false] is the total, the active and the inactive count of
    [get_user_stats], for every accepted page. *)
Theorem stats_agree_with_listing `{Primitives} (skip limit : option Z)
    (db : list User) (all active inactive : UserListResponse) :
  list_users None skip limit db = Return all →
  list_users (Some true) skip limit db = Return active →
  list_users (Some false) skip limit db = Return inactive →
  lr_total all = s_total_users (get_user_stats db) ∧
  lr_total active = s_active_users (get_user_stats db) ∧
  lr_total inactive = s_inactive_users (get_user_stats db).
Proof.
  intros Hall Hact Hin.
  apply list_users_Return in Hall as (_ & _ & Hall & _).
  apply list_users_Return in Hact as (_ & _ & Hact & _).
  apply list_users_Return in Hin as (_ & _ & Hin & _).
  rewrite Hall, Hact, Hin. unfold get_user_stats. simpl.
  pose proof (length_filter_bool db). repeat split; lia.
Qed.

Lemma stats_agree_with_listing_witness :
  s_total_users (get_user_stats sample_db) = 3 ∧
  s_active_users (get_user_stats sample_db) = 2 ∧
  s_inactive_users (get_user_stats sample_db) = 1.
Proof.
  destruct (@stats_agree_with_listing sample_primitives None None sample_db
              _ _ _ eq_refl eq_refl eq_refl) as (H1 & H2 & H3).
  rewrite <- H1, <- H2, <- H3. repeat split.
Defined.

(** X19.  Pages tile.  For a table in which the accounts matching the
    filter have distinct creation times, so that the descending order has
    no ties for the store to break: the page of [l1] rows at offset [sk]
    followed by the page of [l2] rows at offset [sk + l1] is the page of
    [l1 + l2] rows at offset [sk], and the three report the same total.
    Each page is the window of whatever descending order of the matching
    accounts the store returns. *)
Theorem list_pages_tile `{Primitives} (is_active : option bool) (sk l1 l2 : Z)
    (db : list User) (p1 p2 p12 : UserListResponse) :
  NoDup (u_created_at <$> where_is_active is_active db) →
  list_users is_active (Some sk) (Some l1) db = Return p1 →
  list_users is_active (Some (sk + l1)) (Some l2) db = Return p2 →
  list_users is_active (Some sk) (Some (l1 + l2)) db = Return p12 →
  lr_users p12 = (lr_users p1 ++ lr_users p2)%list ∧
  lr_total p1 = lr_total p12 ∧ lr_total p2 = lr_total p12 ∧
  ∀ ordered : list User,
    ordered ≡ₚ where_is_active is_active db →
    StronglySorted (λ a b, u_created_at b ≤ u_created_at a) ordered →
    let window skip limit :=
      to_user_response <$> take (Z.to_nat limit) (drop (Z.to_nat skip) ordered) in
    lr_users p1 = window sk l1 ∧ lr_users p2 = window (sk + l1) l2 ∧
    lr_users p12 = window sk (l1 + l2).
Proof.
  intros Hnd H1 H2 H12.
  apply list_users_Return in H1 as (Hsk & Hl1 & Ht1 & ->).
  apply list_users_Return in H2 as (_ & Hl2 & Ht2 & ->).
  apply list_users_Return in H12 as (_ & _ & Ht12 & ->).
  simpl in *. split; [|split; [|split]]; try (by rewrite ?Ht1, ?Ht2, Ht12).
  - rewrite <- fmap_app. f_equal.
    rewrite !Z2Nat.inj_add by lia.
    rewrite <- drop_drop. apply eq_sym, take_take_drop.
  - intros ordered Hperm Hsorted.
    assert (ordered = order_by_created_at_desc (where_is_active is_active db))
      as ->; [|done].
    apply descending_order_unique; try done.
    + by rewrite Hperm.
    + by rewrite Hperm, order_by_created_at_desc_perm.
    + apply order_by_created_at_desc_sorted.
Qed.

Lemma list_pages_tile_witness :
  let names sk l :=
    match @list_users sample_primitives None (Some sk) (Some l) sample_db with
    | Return p => r_username <$> lr_users p
    | Raise _ => []
    end in
  names 0 3 = (names 0 1 ++ names 1 2)%list ∧ names 0 3 = ["carol"; "bob"; "alice"].
Proof.
  intros names.
  destruct (@list_pages_tile sample_primitives None 0 1 2 sample_db
              _ _ _ ltac:(compute_done) eq_refl eq_refl eq_refl) as [Htile _].
  apply (f_equal (fmap r_username)) in Htile. rewrite fmap_app in Htile.
  split; [exact Htile|reflexivity].
Defined.

(** X20.  Edges of the window.  An offset at or past the number of
    matching accounts gives an empty page that still reports the full
    total; at offset zero with a limit that is not smaller than the total,
    the page holds every matching account exactly once. *)
Theorem list_window_edges `{Primitives} (is_active : option bool)
    (skip limit : option Z) (db : list User) (page : UserListResponse) :
  list_users is_active skip limit db = Return page →
  let matching := where_is_active is_active db in
  (Z.of_nat (length matching) ≤ default 0 skip →
   lr_users page = [] ∧ lr_total page = Z.of_nat (length matching)) ∧
  (default 0 skip = 0 → Z.of_nat (length matching) ≤ default 50 limit →
   lr_users page ≡ₚ to_user_response <$> matching).
Proof.
  intros Hrun matching.
  apply list_users_Return in Hrun as (Hsk & Hlim & Htotal & ->).
  fold matching in Htotal |- *. split.
  - intros Hpast. split; [|done].
    rewrite drop_ge; [by rewrite take_nil|].
    rewrite (Permutation_length (order_by_created_at_desc_perm matching)). lia.
  - intros -> Hfits. simpl. rewrite drop_0.
    rewrite take_ge.
    + by rewrite order_by_created_at_desc_perm.
    + rewrite (Permutation_length (order_by_created_at_desc_perm matching)). lia.
Qed.

Lemma list_window_edges_witness :
  match @list_users sample_primitives (Some true) (Some 2) None sample_db with
  | Return page => lr_users page = [] ∧ lr_total page = 2
  | Raise _ => False
  end.
Proof.
  destruct (@list_window_edges sample_primitives (Some true) (Some 2) None sample_db
              _ eq_refl) as [Hpast _].
  apply Hpast. simpl. lia.
Defined.

(** * Further properties of the credential hasher *)

(** X21.  Verification across the supported schemes.  A hash made by a
    context whose default scheme is [pbkdf2_sha256] or [bcrypt_sha256], for
    a password of at most 4096 characters, and one made under [bcrypt] for
    a password of at most 72 bytes that holds no NUL byte, verify with the
    password itself.  For a [bcrypt] hash and a password of more than 72
    bytes, [verify_password] checks the SHA-256 hex digest of the password
    in place of the password: the hash made from that digest (a text
    within the size limit and free of NUL, as hexadecimal digits are)
    verifies.  No scheme makes a hash of a password of more than 4096
    characters, and [bcrypt] makes none of a password that holds a NUL
    byte. *)
Theorem verify_across_schemes `{Primitives} (s : scheme) (rounds : N)
    (salt P : string) :
  let legacy := {| schemes := [s]; pbkdf2_sha256__default_rounds := rounds;
                   bcrypt__truncate_error := false;
                   bcrypt_sha256__truncate_error := false |} in
  let pre := sha256_hexdigest P in
  ((py_len P ≤ 4096)%nat → (s = bcrypt → has_nul P = false) →
   ∃ h, ctx_hash legacy salt P = Return h ∧
        ((s = bcrypt → (String.length P ≤ 72)%nat) →
         verify_password P h = Return true)) ∧
  ((py_len pre ≤ 4096)%nat → has_nul pre = false →
   ∃ h, ctx_hash legacy salt pre = Return h ∧
        (s = bcrypt → (72 < String.length P)%nat →
         verify_password P h = Return true)) ∧
  ((4096 < py_len P)%nat →
   ctx_hash legacy salt P =
   Raise (ValueError "password exceeds maximum allowed size")) ∧
  (s = bcrypt → (py_len P ≤ 4096)%nat → has_nul P = true →
   ctx_hash legacy salt P =
   Raise (ValueError "bcrypt does not allow NULL bytes in password")).
Proof.
  intros legacy pre. split; [|split; [|split]].
  - intros Hlen Hnul. unfold ctx_hash, check_secret. simpl.
    rewrite (validate_secret_ok _ Hlen). simpl.
    assert (Hn : null_check s P = Return ()).
    { destruct s; simpl; try done. by rewrite Hnul. }
    rewrite Hn. simpl.
    assert (Ht : truncate_check legacy s P = Return ()) by (by destruct s).
    rewrite Ht. simpl. eexists. split; [done|]. intros Hshort.
    unfold verify_password, ctx_verify, check_secret.
    destruct s; simpl; rewrite ?(validate_secret_ok _ Hlen); simpl;
      try (by rewrite bool_decide_eq_true_2).
    rewrite (proj2 (Nat.ltb_ge _ _) (Hshort eq_refl)). simpl.
    rewrite ?(validate_secret_ok _ Hlen). simpl.
    rewrite (Hnul eq_refl). simpl.
    by rewrite bool_decide_eq_true_2.
  - intros Hlen Hnul. unfold ctx_hash, check_secret. simpl.
    rewrite (validate_secret_ok _ Hlen). simpl.
    assert (Hn : null_check s pre = Return ()).
    { destruct s; simpl; try done. by rewrite Hnul. }
    rewrite Hn. simpl.
    assert (Ht : truncate_check legacy s pre = Return ()) by (by destruct s).
    rewrite Ht. simpl. eexists. split; [done|]. intros -> Hlong.
    unfold verify_password. simpl.
    rewrite (proj2 (Nat.ltb_lt _ _) Hlong). simpl.
    unfold check_secret. fold pre.
    rewrite (validate_secret_ok _ Hlen). simpl. rewrite Hnul. simpl.
    by rewrite bool_decide_eq_true_2.
  - intros Hlen. unfold ctx_hash, check_secret. simpl.
    by rewrite (validate_secret_long _ Hlen).
  - intros -> Hlen Hnul. unfold ctx_hash, check_secret. simpl.
    rewrite (validate_secret_ok _ Hlen). simpl. by rewrite Hnul.
Qed.

Lemma verify_across_schemes_witness :
  let P := sample_primitives in
  @verify_password P "short-password"
    (Mcf bcrypt 12 "salt" (@digest P bcrypt 12 "salt" "short-password")) = Return true.
Proof.
  intros P.
  destruct (@verify_across_schemes P bcrypt 7 "salt" "short-password")
    as [Hplain _].
  destruct Hplain as (h & Hh & Hverify); [simpl; lia|reflexivity|].
  injection Hh as <-. apply Hverify. intros _. simpl. lia.
Defined.

(** * Further invariants of the table *)

(** X22.  No request rewrites who an account is: across one successful
    request that writes to the table, a row that is still there under the
    same identifier has the creation time and the password hash it had;
    registration, login, update and deletion never change them. *)
Theorem step_keeps_identity_columns `{Primitives} (settings : Settings) (now : Z)
    (db db' : list User) (u u' : User) :
  step settings now db db' →
  u ∈ db → u' ∈ db' → u_id u' = u_id u →
  u_created_at u' = u_created_at u ∧ u_password_hash u' = u_password_hash u.
Proof.
  intros Hstep Hu Hu' Heq.
  destruct Hstep as [new_id salt user_data resp Hrun|user_data tok Hrun
                    |user_id update_data resp Hrun|user_id msg Hrun].
  - apply create_user_Return in Hrun as (x & -> & (Hid & _) & _).
    assert (u' = u) as ->; [|done].
    apply (NoDup_col_inj u_id (db ++ [x])); try done.
    apply elem_of_app. by left.
  - apply login_user_Return in Hrun as (s & Hs & _ & _ & -> & Hc & _).
    pose proof Hc as (Hid & _). rewrite write_back_ids in Hid.
    destruct (write_back_row _ u u' db Hc Hu Hu' Heq) as [[-> _]|[-> Hsame]];
      [done|].
    simpl in Hsame.
    assert (s = u) as -> by (apply (NoDup_col_inj u_id db); congruence). done.
  - apply update_user_Return in Hrun
      as (s & x & Hs & _ & -> & Hc & _ & Hidx & _ & Hcr & Hh & _).
    pose proof Hc as (Hid & _). rewrite write_back_ids in Hid.
    destruct (write_back_row _ u u' db Hc Hu Hu' Heq) as [[-> _]|[-> Hsame]];
      [done|].
    assert (s = u) as -> by (apply (NoDup_col_inj u_id db); congruence). done.
  - apply delete_user_Return in Hrun as (x & _ & -> & (Hid & _)).
    assert (u' = u) as ->; [|done].
    apply (NoDup_col_inj u_id _ _ _ Hid); try done.
    apply list_elem_of_filter in Hu' as [Hne _].
    apply list_elem_of_filter. split; [congruence|done].
Qed.

Lemma step_keeps_identity_columns_witness :
  let alice' := set_last_login alice 500 in
  u_created_at alice' = u_created_at alice ∧
  u_password_hash alice' = u_password_hash alice.
Proof.
  intros alice'.
  apply (@step_keeps_identity_columns sample_primitives cfg 500 sample_db
           (write_back alice' sample_db) alice alice').
  - eapply (@step_login sample_primitives cfg 500 _ _ alice_login).
    exact alice_login_run.
  - compute_done.
  - compute_done.
  - reflexivity.
Defined.

(** X23.  The outcomes of a login, on a table that satisfies its
    constraints and whose stored hashes are all of the default scheme (the
    only kind registration makes), for a username the store takes (no NUL
    character).  With a password of at most 4096 characters the login
    never ends in a server error: it either succeeds, setting last-login
    and issuing the pair for the row with that username, or raises 401
    "Incorrect username or password".  With a longer password it raises
    that 401 when the username is unknown, and otherwise the hasher's size
    error leaves the handler and the request is answered with status
    500. *)
Theorem login_outcomes `{Primitives} (settings : Settings) (now : Z)
    (user_data : UserLogin) (db : list User) :
  constraints db →
  (∀ r, r ∈ db → ∃ rounds salt chk,
        u_password_hash r = Mcf pbkdf2_sha256 rounds salt chk) →
  storable (l_username user_data) →
  let generic := HTTPException 401 "Incorrect username or password" in
  let too_long := ValueError "password exceeds maximum allowed size" in
  ((py_len (l_password user_data) ≤ 4096)%nat →
   (∃ u, u ∈ db ∧ u_username u = l_username user_data ∧
         login_user settings now user_data db =
         Return (issue_pair settings now u, write_back (set_last_login u now) db)) ∨
   login_user settings now user_data db = Raise generic) ∧
  ((4096 < py_len (l_password user_data))%nat →
   (l_username user_data ∉ u_username <$> db →
    login_user settings now user_data db = Raise generic) ∧
   (l_username user_data ∈ u_username <$> db →
    login_user settings now user_data db = Raise too_long ∧
    response_status too_long = 500)).
Proof.
  intros Hc Hhash _ generic too_long. subst generic too_long.
  pose proof Hc as (_ & _ & Hnames). split.
  - intros Hlen.
    destruct (decide (l_username user_data ∈ u_username <$> db)) as [Hin|Hnin].
    + apply list_elem_of_fmap in Hin as (u & Hname & Hu).
      destruct (Hhash u Hu) as (rounds & salt & chk & Hh).
      destruct (verify_password (l_password user_data) (u_password_hash u))
        as [[|]|e] eqn:Hv.
      * left. exists u. split; [done|]. split; [done|].
        by apply login_user_ignores_active_flag.
      * right. unfold login_user. rewrite Hname.
        rewrite (filter_col_unique u_username) by done. simpl. by rewrite Hv.
      * exfalso. rewrite Hh in Hv.
        by rewrite verify_password_pbkdf2 in Hv.
    + right. unfold login_user. by rewrite (filter_col_miss u_username).
  - intros Hlen. split.
    + intros Hnin. unfold login_user. by rewrite (filter_col_miss u_username).
    + intros Hin. apply list_elem_of_fmap in Hin as (u & Hname & Hu).
      destruct (Hhash u Hu) as (rounds & salt & chk & Hh).
      split; [|done]. unfold login_user. rewrite Hname.
      rewrite (filter_col_unique u_username) by done. simpl. rewrite Hh.
      by rewrite verify_password_pbkdf2_long.
Qed.

Lemma login_outcomes_witness :
  let P := sample_primitives in
  (∃ u, u ∈ sample_db ∧ u_username u = "carol" ∧
        @login_user P cfg 500 {| l_username := "carol"; l_password := "guess" |} sample_db =
        Return (@issue_pair P cfg 500 u, write_back (set_last_login u 500) sample_db)) ∨
  @login_user P cfg 500 {| l_username := "carol"; l_password := "guess" |} sample_db =
  Raise (HTTPException 401 "Incorrect username or password").
Proof.
  intros P.
  destruct (@login_outcomes P cfg 500
              {| l_username := "carol"; l_password := "guess" |} sample_db)
    as [Hshort _].
  - compute_done.
  - intros r Hr. unfold sample_db in Hr.
    repeat (apply elem_of_cons in Hr as [->|Hr]; [by eexists _, _, _|]).
    by apply elem_of_nil in Hr.
  - compute_done.
  - apply Hshort. simpl. lia.
Defined.

(** X24.  A token outlives profile updates.  The guard resolves a token by
    the identifier in its subject, so a token that decodes to the
    identifier of an account still authenticates as that account after
    any successful update of the table, the account's own email or
    username included; the guard then returns the updated row. *)
Theorem token_survives_update `{Primitives} (settings : Settings) (now t : Z)
    (user_id : string) (update_data : UserUpdate) (db db' : list User)
    (resp : UserResponse) (tok : token) (payload : gmap string jvalue) (u : User) :
  update_user now user_id update_data db = Return (resp, db') →
  u ∈ db →
  decode_token settings t tok = Return payload →
  UUID (payload !! "sub") = Return (u_id u) →
  ∃ u', get_current_user settings t db' tok = Return u' ∧
        u' ∈ db' ∧ u_id u' = u_id u ∧
        (UUID_parse user_id = Some (u_id u) →
         to_user_response u' = resp ∧ u_updated_at u' = now).
Proof.
  intros Hrun Hu Hdec Hsub.
  apply update_user_Return in Hrun
    as (s & x & Hs & Hp & -> & Hc & -> & Hidx & Hstamp & _).
  pose proof Hc as (Hid & _). rewrite write_back_ids in Hid.
  destruct (decide (u_id u = u_id x)) as [Hsame|Hother].
  - assert (s = u) as -> by (apply (NoDup_col_inj u_id db); congruence).
    exists x. split; [|split; [by apply (write_back_elem _ u)|split; [done|done]]].
    eapply get_current_user_found; [exact Hdec| |exact Hc|].
    + by rewrite Hidx.
    + by apply (write_back_elem _ u).
  - assert (Hin : u ∈ write_back x db).
    { unfold write_back. apply list_elem_of_fmap. exists u.
      by rewrite bool_decide_eq_false_2. }
    exists u. split; [|split; [done|split; [done|]]].
    + by eapply get_current_user_found.
    + intros Hp'. congruence.
Qed.

Lemma token_survives_update_witness :
  let P := sample_primitives in
  let tok := @create_access_token P cfg 500 (canonical_str 1%N) None None in
  ∃ u', @get_current_user P cfg 800
          (write_back {| u_id := 1%N; u_email := "a@x.com"; u_username := "alice2";
                         u_full_name := None; u_is_active := true;
                         u_password_hash := u_password_hash alice;
                         u_created_at := 100; u_updated_at := 700;
                         u_last_login := None |} sample_db) tok = Return u' ∧
        u_id u' = 1%N ∧ u_updated_at u' = 700.
Proof.
  intros P tok.
  destruct (@token_survives_update P cfg 700 800 (canonical_str 1%N)
              {| p_email := None; p_username := Some (Some "alice2");
                 p_full_name := None; p_is_active := None |}
              sample_db _ _ tok
              (<["exp" := JNum 2300]> {["sub" := JStr (canonical_str 1%N)]}) alice
              eq_refl)
    as (u' & Hguard & _ & Hid & Hresp); [compute_done|reflexivity|reflexivity|].
  exists u'. split; [exact Hguard|]. split; [exact Hid|].
  by destruct (Hresp eq_refl).
Defined.

Lemma delete_user_Return_id `{Primitives} (user_id : string) (db db' : list User)
    (msg : string) :
  delete_user user_id db = Return (msg, db') →
  ∃ x, x ∈ db ∧ UUID_parse user_id = Some (u_id x) ∧
       db' = filter (λ r, u_id r ≠ u_id x) db.
Proof.
  unfold delete_user. intros Hrun.
  apply bind_Return in Hrun as (uid & Huid & Hrun).
  apply path_id_Return in Huid.
  apply bind_Return in Hrun as ([x|] & Hq & Hrun); [|discriminate].
  apply bind_Return in Hrun as (rows & Hcommit & Hrun).
  apply commit_Return in Hcommit as [-> _]. injection Hrun as <- <-.
  apply scalar_one_or_none_Some in Hq.
  assert (Hin : x ∈ select_by_id uid db) by (rewrite Hq; apply list_elem_of_here).
  apply select_by_id_elem in Hin as [Hin <-]. by exists x.
Qed.

(** X25.  A token dies with its account.  After an account is deleted, a
    token whose subject is the identifier of that account is refused by
    the guard with 401 "Invalid credentials", although its signature and
    expiry are still good, and by the refresh endpoint with 401 "User not
    found" when it is a refresh token. *)
Theorem token_dies_with_account `{Primitives} (settings : Settings) (t : Z)
    (user_id msg : string) (db db' : list User)
    (tok : token) (payload : gmap string jvalue) (u : User) :
  delete_user user_id db = Return (msg, db') →
  UUID_parse user_id = Some (u_id u) →
  decode_token settings t tok = Return payload →
  UUID (payload !! "sub") = Return (u_id u) →
  get_current_user settings t db' tok = Raise (HTTPException 401 "Invalid credentials") ∧
  (payload !! "type" = Some (JStr "refresh") →
   refresh_token settings t tok db' = Raise (HTTPException 401 "User not found")).
Proof.
  intros Hrun Hp Hdec Hsub.
  apply delete_user_Return_id in Hrun as (x & Hx & Hpx & ->).
  assert (Hid : u_id x = u_id u) by congruence. rewrite Hid.
  pose proof (deleted_id_gone u db) as Hgone. split.
  - unfold get_current_user. rewrite Hdec. simpl.
    rewrite (UUID_truthy _ _ Hsub). simpl. rewrite Hsub. simpl.
    by rewrite (select_by_id_miss _ _ Hgone).
  - intros Hty. by eapply refresh_token_unknown_account.
Qed.

Lemma token_dies_with_account_witness :
  let P := sample_primitives in
  let tok := @create_access_token P cfg 500 (canonical_str 2%N) None None in
  @get_current_user P cfg 800 [alice; carol] tok
    = Raise (HTTPException 401 "Invalid credentials").
Proof.
  intros P tok.
  destruct (@token_dies_with_account P cfg 800 (canonical_str 2%N)
              "User deleted successfully" sample_db [alice; carol] tok
              (<["exp" := JNum 2300]> {["sub" := JStr (canonical_str 2%N)]}) bob)
    as [Hguard _]; [reflexivity..|exact Hguard].
Defined.
